(** * Cache-aside endpoints of the portfolio site: model and properties

    The server routes under [server/api] are Nitro event handlers written in
    TypeScript.  Each handler talks to two outside parties: an Upstash Redis
    store ([kvStore]) and an upstream HTTP API ([$fetch]).  The handlers are
    embedded here as functions in a small monad [Async] that threads a
    [World]: the content of the store, which store commands are rejected, the
    replies the upstream is going to give, and everything the handler emits
    (store commands, HTTP requests, console lines, response headers).
    The store client and [$fetch] are dependencies of the project: the model
    gives them the behaviour the handlers meet, which for the client includes
    the deserialisation of what it reads.

    The file has three parts: the handlers, one module per source file; the
    notions the properties are stated with, and sample data; the properties.
    The handlers are the functions passed to [defineEventHandler] and
    [defineCachedEventHandler]; the request cache Nitro keeps around the
    latter ([maxAge]) belongs to the framework and is not modelled. *)

From Stdlib Require Import ZArith Ascii String List.
From stdpp Require Import base gmap strings list sorting pretty.

Local Open Scope Z_scope.

(** ** JavaScript values and built-ins used by the handlers *)

Module Js.

(** Truthiness of a [string | null | undefined] value: [None] stands for
    [null] and [undefined], and the empty string is falsy as well. *)
Definition truthy (v : option string) : bool :=
  match v with
  | Some (String _ _) => true
  | _ => false
  end.

(** [a || b] on such values. *)
Definition or_else (a b : option string) : option string :=
  if truthy a then a else b.

(** [Array.prototype.sort(cmp)].  The language fixes the result, not the
    algorithm: the sort is stable, [cmp a b < 0] puts [a] first and
    [cmp a b > 0] puts [b] first.  The model is the stable insertion sort:
    an element is placed in front of the first later element it does not
    have to follow. *)
Fixpoint insert {A} (cmp : A → A → Z) (x : A) (l : list A) : list A :=
  match l with
  | [] => [x]
  | y :: l' => if cmp x y <=? 0 then x :: y :: l' else y :: insert cmp x l'
  end.

Definition sort {A} (cmp : A → A → Z) (l : list A) : list A :=
  foldr (insert cmp) [] l.

(** Property names every object literal inherits from [Object.prototype];
    the [in] operator walks the prototype chain, so it answers [true] for
    them on any plain object. *)
Definition Object_prototype : list string :=
  [ "constructor"; "__defineGetter__"; "__defineSetter__"; "hasOwnProperty";
    "__lookupGetter__"; "__lookupSetter__"; "isPrototypeOf";
    "propertyIsEnumerable"; "toString"; "valueOf"; "__proto__";
    "toLocaleString" ].

(** What reading a property of an object literal of string arrays gives. *)
Inductive Value : Type :=
| Arr (items : list string)
| Inherited (name : string)
| Undefined.

Section Object.
Context {V : Type}.

(** An object literal: own properties in insertion order. *)
Definition own (p : string) (o : list (string * V)) : option V :=
  snd <$> find (λ kv, String.eqb p (fst kv)) o.

(** [p in o] *)
Definition has (p : string) (o : list (string * V)) : bool :=
  match own p o with
  | Some _ => true
  | None => bool_decide (p ∈ Object_prototype)
  end.

Definition keys (o : list (string * V)) : list string := fst <$> o.
Definition values (o : list (string * V)) : list V := snd <$> o.
End Object.

(** [o[p]] *)
Definition get (p : string) (o : list (string * list string)) : Value :=
  match own p o with
  | Some l => Arr l
  | None => if bool_decide (p ∈ Object_prototype) then Inherited p else Undefined
  end.

End Js.

(** [Array.prototype.join] on strings. *)
Fixpoint join (sep : string) (l : list string) : string :=
  match l with
  | [] => EmptyString
  | [s] => s
  | s :: l' => s +:+ sep +:+ join sep l'
  end.

(** ** Values whose type is not known before run time

    [kvStore.get<string>(key)] is typed by its caller, but what it hands
    back is made by [JSON.parse]: any JSON value, [undefined] when the
    rejection of the command is caught.  Numbers are integers here, those
    JavaScript holds exactly: the numbers the handlers store are counts and
    ids. *)

Module JsVal.

#[local] Unset Elimination Schemes.
Inductive t : Type :=
| Undefined
| Null
| Bool (b : bool)
| Number (n : Z)
| Str (s : string)
| Array (items : list t)
| Object (fields : list (string * t)).
#[local] Set Elimination Schemes.

(** [if (v)]: [undefined], [null], [false], [0] and the empty string are
    falsy, every array and every object is truthy. *)
Definition truthy (v : t) : bool :=
  match v with
  | Undefined | Null => false
  | Bool b => b
  | Number n => negb (n =? 0)
  | Str EmptyString => false
  | Str (String _ _) => true
  | Array _ | Object _ => true
  end.

(** [String(v)], the conversion [URLSearchParams.set] applies to its
    argument: an array is its items joined by commas, [null] and
    [undefined] items giving nothing. *)
Fixpoint to_string (v : t) : string :=
  match v with
  | Undefined => "undefined"
  | Null => "null"
  | Bool b => if b then "true" else "false"
  | Number n => pretty n
  | Str s => s
  | Array items =>
      join ","
        (map (λ item, match item with
                      | Undefined | Null => EmptyString
                      | _ => to_string item
                      end) items)
  | Object _ => "[object Object]"
  end.

End JsVal.

(** [JSON.parse], of the host; [None] where it throws. *)
Class JsonParse : Type := JSON_parse : string → option JsVal.t.

(** What the Upstash client makes of a stored string before it hands it
    back (its automatic deserialisation, which [new Redis({ url, token })]
    leaves on): the value [JSON.parse] reads from it, except that a number
    which does not print back as the string is left as the string; the
    string itself where [JSON.parse] throws. *)
Definition deserialize `{JsonParse} (raw : string) : JsVal.t :=
  match JSON_parse raw with
  | Some (JsVal.Number n) =>
      if String.eqb (pretty n) raw then JsVal.Number n else JsVal.Str raw
  | Some v => v
  | None => JsVal.Str raw
  end.

(** ** Errors, outcomes and the world of a request *)

Inductive Error : Type :=
| StoreError
| UpstreamError (status : Z)
| TypeError (message : string)
| PlainError (message : string).      (* [new Error(message)] *)

(** The result of awaiting a handler.  [Pending] is a handler still waiting
    for the upstream when the modelled replies are used up. *)
Inductive Outcome (A : Type) : Type :=
| Returned (a : A)
| Threw (e : Error)
| Pending.
Arguments Returned {A} a.
Arguments Threw {A} e.
Arguments Pending {A}.

(** A settled promise. *)
Inductive Settled (A : Type) : Type :=
| Fulfilled (a : A)
| Rejected (e : Error).
Arguments Fulfilled {A} a.
Arguments Rejected {A} e.

Definition is_fulfilled {A} (r : Settled A) : bool :=
  match r with Fulfilled _ => true | Rejected _ => false end.
Definition is_rejected {A} (r : Settled A) : bool :=
  match r with Fulfilled _ => false | Rejected _ => true end.

(** Commands of the Redis client the handlers use. *)
Inductive Command : Type :=
| GET (key : string)
| SETEX (key : string) (seconds : Z) (value : string)
| MSET (pairs : list (string * string))
| DEL (key : string).

Record Entry : Type := mkEntry { value : string; ttl : option Z }.

Record Request : Type := mkRequest {
  req_method : string;
  req_url : string;
  req_searchParams : list (string * string);
  req_headers : list (string * string);
  req_body : option string
}.

Inductive Level : Type := LInfo | LError.

Record World (R : Type) : Type := mkWorld {
  entries : gmap string Entry;        (* content of the store *)
  outage : Command → bool;            (* commands the store rejects *)
  journal : list Command;             (* commands issued, oldest first *)
  upstream : list (Settled R);        (* how the calls of $fetch settle *)
  sent : list Request;                (* requests given to $fetch *)
  console : list (Level * string);    (* console.info / console.error *)
  headers : gmap string string        (* response headers *)
}.
Arguments mkWorld {R}.
Arguments entries {R}.
Arguments outage {R}.
Arguments journal {R}.
Arguments upstream {R}.
Arguments sent {R}.
Arguments console {R}.
Arguments headers {R}.

Section World.
Context {R : Type}.
Implicit Type w : World R.

Definition set_entries (f : gmap string Entry → gmap string Entry) w : World R :=
  mkWorld (f (entries w)) (outage w) (journal w) (upstream w) (sent w)
          (console w) (headers w).
Definition push_journal (c : Command) w : World R :=
  mkWorld (entries w) (outage w) (journal w ++ [c]) (upstream w) (sent w)
          (console w) (headers w).
Definition set_upstream (u : list (Settled R)) w : World R :=
  mkWorld (entries w) (outage w) (journal w) u (sent w) (console w) (headers w).
Definition push_sent (q : Request) w : World R :=
  mkWorld (entries w) (outage w) (journal w) (upstream w) (sent w ++ [q])
          (console w) (headers w).
Definition push_console (l : Level * string) w : World R :=
  mkWorld (entries w) (outage w) (journal w) (upstream w) (sent w)
          (console w ++ [l]) (headers w).
Definition set_header (k v : string) w : World R :=
  mkWorld (entries w) (outage w) (journal w) (upstream w) (sent w)
          (console w) (<[k := v]> (headers w)).
End World.

(** ** The monad of asynchronous handlers *)

Definition Async (R A : Type) : Type := World R → Outcome A * World R.

Section Async.
Context {R : Type}.

Definition ret {A} (a : A) : Async R A := λ w, (Returned a, w).
Definition throw {A} (e : Error) : Async R A := λ w, (Threw e, w).

(** [await m] followed by the rest of the function. *)
Definition bind {A B} (m : Async R A) (k : A → Async R B) : Async R B :=
  λ w, match m w with
       | (Returned a, w') => k a w'
       | (Threw e, w') => (Threw e, w')
       | (Pending, w') => (Pending, w')
       end.

(** [m.catch(h)] *)
Definition catch {A} (m : Async R A) (h : Error → Async R A) : Async R A :=
  λ w, match m w with
       | (Threw e, w') => h e w'
       | other => other
       end.

Definition modify (f : World R → World R) : Async R unit :=
  λ w, (Returned tt, f w).
End Async.

Notation "'let*' x ':=' m 'in' k" := (bind m (λ x, k))
  (at level 10, x name, m at level 100, k at level 200).
Notation "m '>>' k" := (bind m (λ _, k))
  (at level 100, k at level 200, right associativity).

Section Effects.
Context {R : Type} `{JsonParse}.

(** Every store command is journalled; a rejected one changes nothing. *)
Definition issue (c : Command) : Async R unit :=
  λ w, let w' := push_journal c w in
       if outage w c then (Threw StoreError, w') else (Returned tt, w').

(** What [get] resolves to: [null] for a key the store does not hold, the
    deserialised string for one it holds. *)
Definition found (entry : option Entry) : JsVal.t :=
  match entry with
  | Some entry => deserialize (value entry)
  | None => JsVal.Null
  end.

Definition kv_get (key : string) : Async R JsVal.t :=
  issue (GET key) >> λ w, (Returned (found (entries w !! key)), w).

Definition kv_setex (key : string) (seconds : Z) (v : string) : Async R unit :=
  issue (SETEX key seconds v) >>
  modify (set_entries (insert key (mkEntry v (Some seconds)))).

Definition kv_mset (pairs : list (string * string)) : Async R unit :=
  issue (MSET pairs) >>
  modify (set_entries (λ m,
    foldl (λ acc kv, <[fst kv := mkEntry (snd kv) None]> acc) m pairs)).

Definition kv_del (key : string) : Async R unit :=
  issue (DEL key) >> modify (set_entries (delete key)).

(** [$fetch]: the request goes out and the next reply of the upstream is
    awaited.  [upstream] lists how the successive calls settle, whoever makes
    them fail: a call [$fetch] refuses itself, such as one to a string that
    is no absolute URL, is a rejection of the list like any other. *)
Definition fetch (q : Request) : Async R R :=
  λ w, let w' := push_sent q w in
       match upstream w with
       | [] => (Pending, w')
       | Fulfilled r :: rest => (Returned r, set_upstream rest w')
       | Rejected e :: rest => (Threw e, set_upstream rest w')
       end.

Definition console_info (msg : string) : Async R unit :=
  modify (push_console (LInfo, msg)).
Definition console_error (msg : string) : Async R unit :=
  modify (push_console (LError, msg)).
Definition setResponseHeader (k v : string) : Async R unit :=
  modify (set_header k v).

(** [Promise.allSettled(ms)] *)
Definition settle {A} (m : Async R A) : Async R (Settled A) :=
  catch (let* a := m in ret (Fulfilled a)) (λ e, ret (Rejected e)).

Fixpoint allSettled {A} (ms : list (Async R A)) : Async R (list (Settled A)) :=
  match ms with
  | [] => ret []
  | m :: ms' =>
      let* r := settle m in
      let* rs := allSettled ms' in
      ret (r :: rs)
  end.
End Effects.

(** ** Runtime configuration *)

Record Config : Type := mkConfig {
  upstashRedisRestUrl : string;
  upstashRedisRestToken : string;
  githubUsername : string;
  githubApiKey : string;
  npmUsername : string;
  leetcodeUsername : string;
  cargoUserId : string;
  stravaClientId : string;
  stravaClientSecret : string;
  stravaRefreshToken : string
}.

(** ** [server/api/cache/invalidate.get.ts] *)

Module Invalidate.

Definition cacheKeys (config : Config) : list (string * list string) :=
  [ ("github", [ "github:starred"; "github:repositories";
                 "github:contributions:" +:+ githubUsername config ]);
    ("strava", [ "strava:activities" ]);
    ("wakatime", [ "wakatime:stats" ]);
    ("npm", [ "npm:packages:" +:+ npmUsername config ]);
    ("leetcode", [ "leetcode:stats:" +:+ leetcodeUsername config ]) ].

Record Invalid : Type := mkInvalid {
  error_message : string;
  available : list string
}.

Record Completed : Type := mkCompleted {
  success : bool;
  message : string;
  deleted : nat;
  failed : nat;
  keys : list string
}.

Inductive Response : Type :=
| Failure (r : Invalid)
| Success (r : Completed).

(** The three-way branch that fills [keysToDelete]; [None] is the [else]
    branch, which returns at once. *)
Definition keysToDelete (config : Config) (target : option string)
  : option Js.Value :=
  match target with
  | Some t =>
      if Js.truthy target && Js.has t (cacheKeys config) then
        Some (Js.get t (cacheKeys config))
      else if String.eqb t "all" then
        Some (Js.Arr (concat (Js.values (cacheKeys config))))
      else None
  | None => None
  end.

Definition handler {R} (config : Config) (target : option string)
  : Async R Response :=
  match keysToDelete config target with
  | None =>
      ret (Failure {|
        error_message :=
          "Invalid target. Use: github, strava, wakatime, npm, leetcode, or all";
        available := Js.keys (cacheKeys config) ++ ["all"] |})
  | Some (Js.Arr keysToDelete) =>
      let* results := allSettled (kv_del <$> keysToDelete) in
      ret (Success {|
        success := true;
        message := "Cache invalidation completed for: " +:+ default "undefined" target;
        deleted := length (filter (λ r, is_fulfilled r = true) results);
        failed := length (filter (λ r, is_rejected r = true) results);
        keys := keysToDelete |})
  | Some _ =>
      (* [keysToDelete.map] is undefined on a value that is not an array *)
      throw (TypeError "keysToDelete.map is not a function")
  end.

End Invalidate.

(** ** Parts of the project the handlers import *)

(** [~~/caching]: the two durations are constants of the project. *)
Class Caching : Type := {
  REDIS_CACHE_DURATION : Z;
  REQUEST_CACHE_DURATION : Z
}.

(** [JSON.stringify].  An array is serialised as its items, separated by
    commas, between brackets; the serialisation of an item depends on its
    fields and is given per type. *)
Class Json (A : Type) : Type := stringify : A → string.

#[export] Instance json_array {A} `{Json A} : Json (list A) :=
  λ l, "[" +:+ join "," (stringify <$> l) +:+ "]".

(** [String.prototype.toLowerCase] and [String.prototype.localeCompare]:
    both belong to the host. *)
Class Locale : Type := {
  toLowerCase : string → string;
  localeCompare : string → string → Z
}.

(** The records of the handlers are JavaScript values too; [as_value] is
    the value a record is, as a handler that answers from the store hands it
    over. *)
Class AsValue (A : Type) : Type := as_value : A → JsVal.t.

#[export] Instance array_as_value {A} `{AsValue A} : AsValue (list A) :=
  λ l, JsVal.Array (as_value <$> l).

(** What a data endpoint answers: the value the store client handed back,
    or the list it has just built. *)
Inductive Body (A : Type) : Type :=
| Cached (cached : JsVal.t)
| Fresh (items : list A).
Arguments Cached {A} cached.
Arguments Fresh {A} items.

Definition user_agent : list (string * string) :=
  [ ("user-agent", "MadsHougesen +http://mhouge.dk") ].

(** ** [server/api/cargo/packages/index.get.ts] *)

Module Cargo.

(** Modelled from the spec: the type [CargoPackage] of [~~/cargo] is not part
    of the sources; a package carries its name (the natural key) and its
    download count (the popularity metric), and [downloads] is the only
    field the handler reads. *)
Record CargoPackage : Type := mkPackage {
  name : string;
  downloads : Z
}.

Record Meta : Type := mkMeta {
  next_page : option string;
  total : Z
}.

Record CargoResponse : Type := mkResponse {
  crates : option (list CargoPackage);
  meta : option Meta
}.

Definition request (url : string) : Request :=
  mkRequest "GET" url [] user_agent None.

(** The [while (url)] loop; every turn awaits one reply. *)
Fixpoint loop (fuel : nat) (url : option string) (packages : list CargoPackage)
  : Async CargoResponse (list CargoPackage) :=
  match fuel with
  | O => λ w, (Pending, w)
  | S fuel =>
      match url with
      | Some (String _ _ as url) =>
          let* response := fetch (request url) in
          let packages :=
            match crates response with
            | Some crates => packages ++ crates
            | None => packages
            end in
          loop fuel (meta response ≫= next_page) packages
      | _ => ret packages
      end
  end.

(** A turn uses up one reply, so one turn more than there are replies is
    enough for the loop to end or to be left waiting. *)
Definition pages (url : option string) (packages : list CargoPackage)
  : Async CargoResponse (list CargoPackage) :=
  λ w, loop (S (length (upstream w))) url packages w.

Definition cacheKey (config : Config) : string :=
  "cargo:packages:" +:+ cargoUserId config.

Definition first_url (config : Config) : option string :=
  match cargoUserId config with
  | String _ _ =>
      Some ("https://crates.io/api/v1/crates?page=1&per_page=10&sort=alpha&user_id="
            +:+ cargoUserId config)
  | EmptyString => None
  end.

Definition by_downloads (a b : CargoPackage) : Z := downloads b - downloads a.

Section Handler.
Context `{Caching} `{JsonParse} `{Json CargoPackage}.

Definition handler (config : Config)
  : Async CargoResponse (Body CargoPackage) :=
  let* cached :=
    catch (kv_get (cacheKey config)) (λ _, ret JsVal.Undefined) in
  if JsVal.truthy cached then
    setResponseHeader "content-type" "application/json" >>
    setResponseHeader "x-redis-cache" "hit" >>
    ret (Cached cached)
  else
    let* packages := pages (first_url config) [] in
    let packages := Js.sort by_downloads packages in
    match packages with
    | _ :: _ =>
        catch (kv_setex (cacheKey config) REDIS_CACHE_DURATION
                        (stringify packages))
              (λ _, ret tt)
    | [] => ret tt
    end >>
    setResponseHeader "x-redis-cache" "miss" >>
    ret (Fresh packages).
End Handler.

End Cargo.

(** ** [server/api/github/contributions/index.get.ts] and the starred
       repositories handler that comes with it *)

Module Github.

Record Language : Type := mkLanguage { color : string; language : string }.

(** A node of the GraphQL answer.  The fields the handlers guard with [?.],
    [||] or [??] may be absent. *)
Module Node.
Record t : Type := mk {
  description : option string;
  homepageUrl : option string;
  languages : option (list Language);
  name : option string;
  nameWithOwner : option string;
  stargazerCount : option Z;
  url : option string;
  isFork : bool
}.
End Node.

Record PageInfo : Type := mkPageInfo {
  endCursor : option string;
  hasNextPage : bool
}.

Record Connection : Type := mkConnection {
  nodes : option (list Node.t);
  pageInfo : option PageInfo
}.

(** [response?.data?.user?.<connection>]: [None] when a link of the chain is
    missing. *)
Abbreviation Response := (option Connection).

(** [{ ...repo, name, languages, stargazerCount }] *)
Record Project : Type := mkProject {
  description : option string;
  homepageUrl : option string;
  languages : list Language;
  name : option string;
  nameWithOwner : option string;
  stargazerCount : Z;
  url : option string;
  isFork : bool
}.

Definition dquote : string := String (ascii_of_nat 34) EmptyString.

Definition graphql (config : Config) (query : string) : Request :=
  mkRequest "POST" "https://api.github.com/graphql" []
    (("authorization", "Bearer " +:+ githubApiKey config) :: user_agent)
    (Some query).

(** The query of the contributions handler, its layout reduced to single
    spaces.  The text has one hole, the login. *)
Definition contributions_query (config : Config) : string :=
  "{ user(login: " +:+ dquote +:+ githubUsername config +:+ dquote +:+ ") { "
  +:+ "repositoriesContributedTo( privacy: PUBLIC first: 100 "
  +:+ "orderBy: {field: STARGAZERS, direction: DESC} "
  +:+ "contributionTypes: [COMMIT] includeUserRepositories: false ) { "
  +:+ "nodes { ... on Repository { name nameWithOwner description homepageUrl "
  +:+ "stargazerCount url "
  +:+ "languages(first: 3, orderBy: {field: SIZE, direction: DESC}) "
  +:+ "{ nodes { color name } } } } "
  +:+ "pageInfo { endCursor hasNextPage } } } }".

Definition starred_query (config : Config) : string :=
  "query GET_STARRED { user(login: " +:+ dquote +:+ githubUsername config
  +:+ dquote +:+ ") { "
  +:+ "starredRepositories( first: 6 "
  +:+ "orderBy: { field: STARRED_AT, direction: DESC } ) { "
  +:+ "nodes { name nameWithOwner description homepageUrl url stargazerCount "
  +:+ "isFork languages( first: 3 orderBy: { field: SIZE, direction: DESC } ) "
  +:+ "{ nodes { color name } } } "
  +:+ "pageInfo { hasNextPage endCursor } } } }".

Section Handlers.
Context `{Caching} `{JsonParse} `{Locale} `{Json Project}.

(** The body of [for (const repo of repos)]. *)
Definition visit (acc : list Project * gset string) (repo : Node.t)
  : list Project * gset string :=
  let '(projects, seenProjects) := acc in
  let name :=
    toLowerCase <$> Js.or_else (Node.nameWithOwner repo) (Node.name repo) in
  match name with
  | Some (String _ _ as key) =>
      if bool_decide (key ∈ seenProjects) then acc
      else
        (projects ++
           [ {| description := Node.description repo;
                homepageUrl := Node.homepageUrl repo;
                languages := default [] (Node.languages repo);
                name := name;
                nameWithOwner := Node.nameWithOwner repo;
                stargazerCount := default 0 (Node.stargazerCount repo);
                url := Node.url repo;
                isFork := Node.isFork repo |} ],
         {[ key ]} ∪ seenProjects)
  | _ => acc
  end.

(** The [do { ... } while (cursor)] loop.  [cursor] is assigned and
    tested, the request is built from the configuration alone. *)
Fixpoint loop (fuel : nat) (config : Config)
    (projects : list Project) (seenProjects : gset string)
    (cursor : option string) : Async Response (list Project) :=
  match fuel with
  | O => λ w, (Pending, w)
  | S fuel =>
      let* response := fetch (graphql config (contributions_query config)) in
      let repos := response ≫= nodes in
      let '(projects, seenProjects) :=
        match repos with
        | Some ((_ :: _) as repos) => foldl visit (projects, seenProjects) repos
        | _ => (projects, seenProjects)
        end in
      let pageInfo := response ≫= pageInfo in
      if negb (default false (hasNextPage <$> pageInfo)) then ret projects
      else
        let cursor := Js.or_else (pageInfo ≫= endCursor) None in
        if Js.truthy cursor then loop fuel config projects seenProjects cursor
        else ret projects
  end.

Definition pages (config : Config) : Async Response (list Project) :=
  λ w, loop (S (length (upstream w))) config [] ∅ None w.

Definition name_of (p : Project) : string := default EmptyString (name p).

(** The comparator of [projects.sort]. *)
Definition by_stars (a b : Project) : Z :=
  if stargazerCount a =? stargazerCount b then
    localeCompare (toLowerCase (name_of a)) (toLowerCase (name_of b))
  else stargazerCount b - stargazerCount a.

Definition contributions_key (config : Config) : string :=
  "github:contributions:" +:+ githubUsername config.

Definition contributions (config : Config) : Async Response (Body Project) :=
  let cacheKey := contributions_key config in
  let* cached := catch (kv_get cacheKey) (λ _, ret JsVal.Undefined) in
  if JsVal.truthy cached then
    setResponseHeader "content-type" "application/json" >>
    setResponseHeader "x-redis-cache" "hit" >>
    ret (Cached cached)
  else
    let* projects := pages config in
    let projects := Js.sort by_stars projects in
    match projects with
    | _ :: _ =>
        catch (kv_setex cacheKey REDIS_CACHE_DURATION (stringify projects))
              (λ _, ret tt)
    | [] => ret tt
    end >>
    setResponseHeader "x-redis-cache" "miss" >>
    ret (Fresh projects).

(** The [map] of the starred handler. *)
Definition shape (p : Node.t) : Project :=
  {| description := Some (default EmptyString (Node.description p));
     homepageUrl := Some (default EmptyString (Node.homepageUrl p));
     languages := default [] (Node.languages p);
     name := Js.or_else (Node.nameWithOwner p) (Node.name p);
     nameWithOwner := Node.nameWithOwner p;
     stargazerCount := default 0 (Node.stargazerCount p);
     url := Some (default EmptyString (Node.url p));
     isFork := Node.isFork p |}.

Definition starred_key : string := "github:starred".

Definition starred (config : Config) : Async Response (Body Project) :=
  let cacheKey := starred_key in
  let* cached := catch (kv_get cacheKey) (λ _, ret JsVal.Undefined) in
  if JsVal.truthy cached then
    setResponseHeader "content-type" "application/json" >>
    setResponseHeader "x-redis-cache" "hit" >>
    ret (Cached cached)
  else
    let* response := fetch (graphql config (starred_query config)) in
    let projects := shape <$> default [] (response ≫= nodes) in
    match projects with
    | _ :: _ =>
        catch (kv_setex cacheKey REDIS_CACHE_DURATION (stringify projects))
              (λ _, ret tt)
    | [] => ret tt
    end >>
    setResponseHeader "x-redis-cache" "miss" >>
    ret (Fresh projects).
End Handlers.

End Github.

(** ** [server/api/strava/auth/refresh/index.post.ts] and the second
       refresh handler of the repository (the one importing
       [@upstash/redis/cloudflare]) *)

Module Strava.

Record TokenResponse : Type := mkTokens {
  access_token : string;
  refresh_token : string
}.

(** [{ access_token, error }]; [None] is [null] for the token and an absent
    [error]. *)
Record Result : Type := mkResult {
  result_access_token : option string;
  result_error : option string
}.

Definition token_request (config : Config) (refreshToken : string) : Request :=
  mkRequest "POST" "https://www.strava.com/oauth/token"
    [ ("client_id", stravaClientId config);
      ("client_secret", stravaClientSecret config);
      ("grant_type", "refresh_token");
      ("refresh_token", refreshToken) ]
    [] None.

Definition tokens (response : TokenResponse) : list (string * string) :=
  [ ("strava:access_token", access_token response);
    ("strava:refresh_token", refresh_token response) ].

Section Handlers.
Context `{JsonParse}.

(** [refreshToken] is typed [string], and is whatever the client handed
    back; [searchParams.set] turns it into a string. *)
Definition refresh (config : Config) : Async TokenResponse Result :=
  if negb (Js.truthy (Some (stravaClientId config)))
     || negb (Js.truthy (Some (stravaClientSecret config))) then
    console_error "Strava credentials not found in runtime config" >>
    ret (mkResult None (Some "Strava not configured"))
  else
    let* refreshToken :=
      catch (kv_get "strava:refresh_token")
            (λ err,
               console_error "Failed to get refresh token from Redis:" >>
               ret JsVal.Undefined) in
    let* refreshToken :=
      if negb (JsVal.truthy refreshToken)
         && Js.truthy (Some (stravaRefreshToken config))
      then
        console_info "Using fallback refresh token from environment variables" >>
        ret (JsVal.Str (stravaRefreshToken config))
      else ret refreshToken in
    if negb (JsVal.truthy refreshToken) then
      console_error
        "No refresh token available (neither in Redis nor environment)" >>
      ret (mkResult None (Some "Refresh token not found"))
    else
      console_info "Refreshing Strava access token..." >>
      let* response :=
        catch (fetch (token_request config (JsVal.to_string refreshToken)))
              (λ err,
                 console_error "Failed to refresh Strava token via API:" >>
                 throw err) in
      console_info "Successfully refreshed Strava token, updating Redis..." >>
      catch (kv_mset (tokens response))
            (λ err,
               console_error "Failed to update refreshed tokens in Redis:") >>
      ret (mkResult (Some (access_token response)) None).

(** The other refresh handler: the same exchange, with the store reached
    through plain [await]s. *)
Definition refresh_cloudflare (config : Config) : Async TokenResponse Result :=
  if negb (Js.truthy (Some (stravaClientId config)))
     || negb (Js.truthy (Some (stravaClientSecret config))) then
    ret (mkResult None (Some "Strava not configured"))
  else
    let* refreshToken := kv_get "strava:refresh_token" in
    if negb (JsVal.truthy refreshToken) then
      ret (mkResult None (Some "Refresh token not found"))
    else
      let* response :=
        fetch (token_request config (JsVal.to_string refreshToken)) in
      kv_mset (tokens response) >>
      ret (mkResult (Some (access_token response)) None).

End Handlers.

End Strava.


(** ** The Strava authorisation callback (the third handler of the file that
       holds the second refresh handler) *)

Module StravaCallback.

(** The fields of [StravaAuthResponse] the handler reads. *)
Record Athlete : Type := mkAthlete {
  id : option Z;
  firstname : string;
  lastname : string;
  username : string
}.

Record StravaAuthResponse : Type := mkAuth {
  access_token : string;
  refresh_token : string;
  athlete : option Athlete
}.

(** [{ id, name, username }] *)
Record AthleteSummary : Type := mkSummary {
  summary_id : Z;
  summary_name : string;
  summary_username : string
}.

(** [{ success, athlete, message }] *)
Record Authenticated : Type := mkAuthenticated {
  success : bool;
  summary : AthleteSummary;
  message : string
}.

Definition token_request (config : Config) (code : string) : Request :=
  mkRequest "POST" "https://www.strava.com/oauth/token"
    [ ("code", code);
      ("grant_type", "authorization_code");
      ("client_id", stravaClientId config);
      ("client_secret", stravaClientSecret config) ]
    [] None.

Section Handler.
Context `{Json Z}.

(** What [mset] is given; the id is a number and goes through the
    serialisation of numbers. *)
Definition tokens (response : StravaAuthResponse) (athlete_id : Z)
  : list (string * string) :=
  [ ("strava:access_token", access_token response);
    ("strava:refresh_token", refresh_token response);
    ("strava:athlete_id", stringify athlete_id) ].

(** [code] is [searchParams.get('code')], [None] when the parameter is
    absent.  A reply without a truthy athlete id falls through to the
    [throw] that ends the function. *)
Definition handler (config : Config) (code : option string)
  : Async StravaAuthResponse Authenticated :=
  match code with
  | None => throw (TypeError "Code is not set")
  | Some code =>
      let* response := fetch (token_request config code) in
      match athlete response with
      | Some who =>
          match id who with
          | Some athlete_id =>
              if athlete_id =? 0 then
                throw (PlainError "Failed to authenticate with Strava")
              else
                catch (kv_mset (tokens response athlete_id)) (λ _, ret tt) >>
                ret {| success := true;
                       summary := {|
                         summary_id := athlete_id;
                         summary_name := firstname who +:+ " " +:+ lastname who;
                         summary_username := username who |};
                       message := "Successfully authenticated with Strava!" |}
          | None => throw (PlainError "Failed to authenticate with Strava")
          end
      | None => throw (PlainError "Failed to authenticate with Strava")
      end
  end.

End Handler.

End StravaCallback.

(** * Notions used to state the properties *)

(** ** The store and the upstream, seen from a handler *)

Section Notions.
Context {R : Type} `{Caching} `{JsonParse}.
Implicit Type w : World R.

(** What [await kvStore.get(key).catch(() => undefined)] evaluates to. *)
Definition reads (key : string) w : JsVal.t :=
  if outage w (GET key) then JsVal.Undefined else found (entries w !! key).

(** The world after [kvStore.setex(key, REDIS_CACHE_DURATION, v).catch(...)]. *)
Definition write_back (key v : string) w : World R :=
  let w' := push_journal (SETEX key REDIS_CACHE_DURATION v) w in
  if outage w (SETEX key REDIS_CACHE_DURATION v) then w'
  else set_entries (insert key (mkEntry v (Some REDIS_CACHE_DURATION))) w'.

(** The world a run of requests leaves: the replies not yet used and the
    requests sent are the only fields it touches. *)
Definition emitted w (qs : list Request) (rest : list (Settled R)) : World R :=
  mkWorld (entries w) (outage w) (journal w) rest (sent w ++ qs)
          (console w) (headers w).

(** A computation that only talks to the upstream. *)
Definition upstream_only {A} (m : Async R A) : Prop :=
  ∃ f : list (Settled R) → Outcome A * list Request * list (Settled R),
    ∀ w, m w = let '(o, qs, rest) := f (upstream w) in (o, emitted w qs rest).

(** The upstream serves a finite listing: the replies at hand start with the
    pages of [listing], every page but the last announces a next one. *)
Definition serves (more : R → bool) w (listing : list R) : Prop :=
  ∃ init last rest,
    listing = init ++ [last]
    ∧ upstream w = (Fulfilled <$> listing) ++ rest
    ∧ Forall (λ r, more r = true) init
    ∧ more last = false.

(** The upstream breaks off: the pages of [init] are served and each
    announces a next one, then a request is rejected with [e]. *)
Definition breaks_off (more : R → bool) w (init : list R) (e : Error)
    (rest : list (Settled R)) : Prop :=
  upstream w = (Fulfilled <$> init) ++ Rejected e :: rest
  ∧ Forall (λ r, more r = true) init.

(** The guarded write at the end of a miss: nothing for an empty list. *)
Definition persist {A} `{Json A} (key : string) (items : list A) w : World R :=
  match items with
  | [] => w
  | _ :: _ => write_back key (stringify items) w
  end.

(** The world a miss leaves, given the world [w'] the requests left. *)
Definition missed {A} `{Json A} (key : string) (items : list A) w' : World R :=
  set_header "x-redis-cache" "miss" (persist key items (push_journal (GET key) w')).

(** The world a hit leaves. *)
Definition served (key : string) w : World R :=
  set_header "x-redis-cache" "hit"
    (set_header "content-type" "application/json" (push_journal (GET key) w)).

(** The answer of a data endpoint that has fetched: the list, or the
    failure of the fetch. *)
Definition fresh {A} (o : Outcome (list A)) : Outcome (Body A) :=
  match o with
  | Returned items => Returned (Fresh items)
  | Threw e => Threw e
  | Pending => Pending
  end.

(** The cache-aside wrapper of the design (section 4.1): look the key up;
    on a hit answer what the client handed back; on a miss run the fetch
    routine, write a non-empty result back without waiting for the store,
    and answer the result.  The three data handlers are instances of it. *)
Definition cache_aside {A} `{Json A} (key : string) (routine : Async R (list A))
  : Async R (Body A) :=
  let* cached := catch (kv_get key) (λ _, ret JsVal.Undefined) in
  if JsVal.truthy cached then
    setResponseHeader "content-type" "application/json" >>
    setResponseHeader "x-redis-cache" "hit" >>
    ret (Cached cached)
  else
    let* items := routine in
    match items with
    | _ :: _ =>
        catch (kv_setex key REDIS_CACHE_DURATION (stringify items)) (λ _, ret tt)
    | [] => ret tt
    end >>
    setResponseHeader "x-redis-cache" "miss" >>
    ret (Fresh items).

(** *** What the claims say of a data endpoint

    A data endpoint is given by its handler, its cache key and its fetch
    routine (the requests and the shaping between the lookup and the
    write). *)

Section Endpoint.
Context {A : Type} `{Json A} `{AsValue A}.
Variable handler : Async R (Body A).
Variable key : string.
Variable routine : Async R (list A).

(** A hit answers the value the client reads from the string stored under
    the key.  A list written back by a miss is stored as its serialisation,
    and where [JSON.parse] reads the list back from that string, the next
    hit answers the list. *)
Definition round_trips : Prop :=
  (∀ w entry,
     outage w (GET key) = false → entries w !! key = Some entry →
     JsVal.truthy (deserialize (value entry)) = true →
     fst (handler w) = Returned (Cached (deserialize (value entry))))
  ∧ (∀ w items w',
       JsVal.truthy (reads key w) = false → fst (routine w) = Returned items →
       items ≠ [] →
       outage w (SETEX key REDIS_CACHE_DURATION (stringify items)) = false →
       entries w' = entries (snd (handler w)) → outage w' (GET key) = false →
       JSON_parse (stringify items) = Some (as_value items) →
       value <$> entries w' !! key = Some (stringify items)
       ∧ fst (handler w') = Returned (Cached (as_value items))).

(** A failed read is a miss; a failed write changes neither the answer nor
    the store. *)
Definition swallows_store_errors : Prop :=
  (∀ w, outage w (GET key) = true → fst (handler w) = fresh (fst (routine w)))
  ∧ (∀ w items,
       JsVal.truthy (reads key w) = false → fst (routine w) = Returned items →
       outage w (SETEX key REDIS_CACHE_DURATION (stringify items)) = true →
       fst (handler w) = Returned (Fresh items)
       ∧ entries (snd (handler w)) = entries w).

(** A failed fetch is the answer of the request, and the store gets no
    command but the lookup. *)
Definition propagates_fetch_errors : Prop :=
  ∀ w e,
    JsVal.truthy (reads key w) = false → fst (routine w) = Threw e →
    fst (handler w) = Threw e
    ∧ entries (snd (handler w)) = entries w
    ∧ journal (snd (handler w)) = journal w ++ [GET key].

(** The request fails with [e]: nothing is answered, the store has seen the
    lookup and nothing else and keeps its content, the requests sent are
    [qs], each once, and the replies [rest] are left unused. *)
Definition fails_with w (e : Error) (qs : list Request)
    (rest : list (Settled R)) : Prop :=
  fst (handler w) = Threw e
  ∧ entries (snd (handler w)) = entries w
  ∧ journal (snd (handler w)) = journal w ++ [GET key]
  ∧ sent (snd (handler w)) = sent w ++ qs
  ∧ upstream (snd (handler w)) = rest.

(** An empty list is answered and not written; whatever is written is the
    serialisation of a non-empty list. *)
Definition skips_empty_write : Prop :=
  (∀ w,
     JsVal.truthy (reads key w) = false → fst (routine w) = Returned [] →
     fst (handler w) = Returned (Fresh [])
     ∧ entries (snd (handler w)) = entries w
     ∧ journal (snd (handler w)) = journal w ++ [GET key])
  ∧ (∀ w k s v,
       SETEX k s v ∈ journal (snd (handler w)) →
       SETEX k s v ∈ journal w
       ∨ ∃ items : list A, items ≠ [] ∧ v = stringify items).

End Endpoint.

(** *** The invalidation endpoint *)

(** What [Promise.allSettled] over the deletions leaves behind. *)
Definition after_del (ks : list string) w : World R :=
  mkWorld (foldl (λ m k, if outage w (DEL k) then m else delete k m) (entries w) ks)
          (outage w) (journal w ++ (DEL <$> ks)) (upstream w) (sent w)
          (console w) (headers w).

Definition del_result w (k : string) : Settled unit :=
  if outage w (DEL k) then Rejected StoreError else Fulfilled tt.

End Notions.

Definition valid_targets : list string :=
  [ "github"; "strava"; "wakatime"; "npm"; "leetcode"; "all" ].

(** ** Orders *)

(** [a] may stand in front of [b] for the comparator [cmp]. *)
Definition before {A} (cmp : A → A → Z) (a b : A) : Prop := cmp a b <= 0.

(** What the handlers need of the collation. *)
Class LocaleLaws `{Locale} : Prop := {
  toLowerCase_idemp s : toLowerCase (toLowerCase s) = toLowerCase s;
  localeCompare_total a b : localeCompare a b <= 0 ∨ localeCompare b a <= 0;
  localeCompare_trans a b c :
    localeCompare a b <= 0 → localeCompare b c <= 0 → localeCompare a c <= 0;
  localeCompare_antisym a b :
    localeCompare a b <= 0 → localeCompare b a <= 0 → a = b
}.

(** ** The fetch routines *)

Section Routines.
Context `{Caching} `{JsonParse} `{Locale}.
Context `{Json Cargo.CargoPackage} `{Json Github.Project}.

(** crates.io: the requests of the loop, then the sort. *)
Definition cargo_routine (config : Config)
  : Async Cargo.CargoResponse (list Cargo.CargoPackage) :=
  let* packages := Cargo.pages (Cargo.first_url config) [] in
  ret (Js.sort Cargo.by_downloads packages).

(** The loop as a function of the replies alone: the outcome, the requests
    sent and the replies left. *)
Fixpoint cargo_collect (script : list (Settled Cargo.CargoResponse))
    (url : option string) (packages : list Cargo.CargoPackage)
  : Outcome (list Cargo.CargoPackage) * list Request
    * list (Settled Cargo.CargoResponse) :=
  match url with
  | Some (String _ _ as u) =>
      match script with
      | [] => (Pending, [Cargo.request u], [])
      | Rejected e :: rest => (Threw e, [Cargo.request u], rest)
      | Fulfilled response :: rest =>
          let '(o, qs, rest') :=
            cargo_collect rest (Cargo.meta response ≫= Cargo.next_page)
              (match Cargo.crates response with
               | Some crates => packages ++ crates
               | None => packages
               end) in
          (o, Cargo.request u :: qs, rest')
      end
  | _ => (Returned packages, [], script)
  end.

Definition page_crates (response : Cargo.CargoResponse) : list Cargo.CargoPackage :=
  default [] (Cargo.crates response).

(** Whether a reply of crates.io announces a next page. *)
Definition cargo_more (response : Cargo.CargoResponse) : bool :=
  Js.truthy (Cargo.meta response ≫= Cargo.next_page).

(** GitHub contributions: the requests of the loop, then the sort. *)
Definition contributions_routine (config : Config)
  : Async Github.Response (list Github.Project) :=
  let* projects := Github.pages config in
  ret (Js.sort Github.by_stars projects).

Definition contributions_request (config : Config) : Request :=
  Github.graphql config (Github.contributions_query config).

(** What one reply adds to the list and to the set of names seen. *)
Definition absorb (response : Github.Response)
    (acc : list Github.Project * gset string) : list Github.Project * gset string :=
  match response ≫= Github.nodes with
  | Some ((_ :: _) as repos) => foldl Github.visit acc repos
  | _ => acc
  end.

(** Whether the loop goes on after a reply. *)
Definition goes_on (response : Github.Response) : bool :=
  default false (Github.hasNextPage <$> (response ≫= Github.pageInfo))
  && Js.truthy (Js.or_else ((response ≫= Github.pageInfo) ≫= Github.endCursor) None).

Fixpoint github_collect (config : Config) (script : list (Settled Github.Response))
    (acc : list Github.Project * gset string)
  : Outcome (list Github.Project) * list Request * list (Settled Github.Response) :=
  match script with
  | [] => (Pending, [contributions_request config], [])
  | Rejected e :: rest => (Threw e, [contributions_request config], rest)
  | Fulfilled response :: rest =>
      if goes_on response then
        let '(o, qs, rest') := github_collect config rest (absorb response acc) in
        (o, contributions_request config :: qs, rest')
      else (Returned (fst (absorb response acc)), [contributions_request config], rest)
  end.

(** The natural key of a node: [(nameWithOwner || name)?.toLowerCase()]. *)
Definition key_of (repo : Github.Node.t) : option string :=
  toLowerCase <$> Js.or_else (Github.Node.nameWithOwner repo) (Github.Node.name repo).

Definition page_nodes (response : Github.Response) : list Github.Node.t :=
  default [] (response ≫= Github.nodes).

(** The list and the set of names go together: the names of the list are
    the set, no name is there twice, every name is truthy. *)
Definition deduplicated (acc : list Github.Project * gset string) : Prop :=
  NoDup (Github.name <$> acc.1)
  ∧ (∀ k : string, Some k ∈ Github.name <$> acc.1 ↔ k ∈ acc.2)
  ∧ (∀ p, p ∈ acc.1 → Js.truthy (Github.name p) = true).

(** The names the loop records are lower-cased already. *)
Definition lowercased (projects : list Github.Project) : Prop :=
  ∀ p, p ∈ projects → toLowerCase (Github.name_of p) = Github.name_of p.

(** More stars first; among equal stars the lower-cased names in the order
    of the collation. *)
Definition stars_then_name (a b : Github.Project) : Prop :=
  Github.stargazerCount b < Github.stargazerCount a
  ∨ (Github.stargazerCount a = Github.stargazerCount b
     ∧ localeCompare (toLowerCase (Github.name_of a))
                     (toLowerCase (Github.name_of b)) <= 0).

(** GitHub starred repositories: one request, then the shaping. *)
Definition starred_request (config : Config) : Request :=
  Github.graphql config (Github.starred_query config).

Definition starred_projects (response : Github.Response) : list Github.Project :=
  Github.shape <$> default [] (response ≫= Github.nodes).

Definition starred_routine (config : Config)
  : Async Github.Response (list Github.Project) :=
  let* response := fetch (starred_request config) in
  ret (starred_projects response).

End Routines.

(** ** The Strava token refresh *)

(** The refresh token the handler of [index.post.ts] ends up with: the
    stored one, or else the configured one. *)
Definition refresh_token_used `{JsonParse} (config : Config)
    (w : World Strava.TokenResponse) : JsVal.t :=
  if negb (JsVal.truthy (reads "strava:refresh_token" w))
     && Js.truthy (Some (stravaRefreshToken config))
  then JsVal.Str (stravaRefreshToken config)
  else reads "strava:refresh_token" w.

Definition strava_configured (config : Config) : Prop :=
  Js.truthy (Some (stravaClientId config)) = true
  ∧ Js.truthy (Some (stravaClientSecret config)) = true.

(** ** Further notions: what a request leaves in the world *)

Section MoreNotions.
Context {R : Type} `{Caching} `{JsonParse}.
Implicit Type w : World R.

Section Endpoint.
Context {A : Type} `{Json A}.
Variable handler : Async R (Body A).
Variable key : string.
Variable routine : Async R (list A).

(** A hit costs one lookup: no request goes out, no reply is used, the
    store keeps its content and the console stays silent. *)
Definition hit_is_quiet : Prop :=
  ∀ w entry,
    outage w (GET key) = false → entries w !! key = Some entry →
    JsVal.truthy (deserialize (value entry)) = true →
    sent (snd (handler w)) = sent w
    ∧ upstream (snd (handler w)) = upstream w
    ∧ entries (snd (handler w)) = entries w
    ∧ journal (snd (handler w)) = journal w ++ [GET key]
    ∧ console (snd (handler w)) = console w.

(** The [x-redis-cache] header says where the body came from. *)
Definition header_tells_origin : Prop :=
  ∀ w body,
    fst (handler w) = Returned body →
    headers (snd (handler w)) !! "x-redis-cache"
    = Some (match body with Cached _ => "hit" | Fresh _ => "miss" end)
    ∧ (∀ cached, body = Cached cached →
              headers (snd (handler w)) !! "content-type" = Some "application/json").

(** A request costs the store one lookup and at most one write; the write
    goes to the key of the endpoint, with the duration of the project, and
    carries the list that is answered. *)
Definition writes_at_most_once : Prop :=
  ∀ w,
    journal (snd (handler w)) = journal w ++ [GET key]
    ∨ ∃ items : list A,
        items ≠ []
        ∧ fst (handler w) = Returned (Fresh items)
        ∧ journal (snd (handler w))
          = journal w ++ [GET key; SETEX key REDIS_CACHE_DURATION (stringify items)].

(** A write that the store takes replaces the entry of the key, whatever
    was there, and leaves every other key alone. *)
Definition miss_overwrites : Prop :=
  ∀ w items,
    JsVal.truthy (reads key w) = false → fst (routine w) = Returned items →
    items ≠ [] →
    outage w (SETEX key REDIS_CACHE_DURATION (stringify items)) = false →
    entries (snd (handler w)) !! key
    = Some (mkEntry (stringify items) (Some REDIS_CACHE_DURATION))
    ∧ ∀ other, other ≠ key →
               entries (snd (handler w)) !! other = entries w !! other.

(** A string under the key that the client hands back as a falsy value is
    no hit: the endpoint fetches.  The empty string is such a string, since
    [JSON.parse] throws on it; so are the texts of [0], [false] and
    [null]. *)
Definition empty_string_misses : Prop :=
  (∀ w entry,
     entries w !! key = Some entry →
     JsVal.truthy (deserialize (value entry)) = false →
     fst (handler w) = fresh (fst (routine w)))
  ∧ (JSON_parse EmptyString = None →
     ∀ w t,
       entries w !! key = Some (mkEntry EmptyString t) →
       fst (handler w) = fresh (fst (routine w))).

End Endpoint.
End MoreNotions.

Section MoreRoutines.
Context `{Locale}.

(** The URL a crates.io reply names for the next page. *)
Definition next_url (response : Cargo.CargoResponse) : string :=
  default EmptyString (Cargo.meta response ≫= Cargo.next_page).

(** The record the contributions loop builds from a node. *)
Definition record_of (repo : Github.Node.t) : Github.Project :=
  {| Github.description := Github.Node.description repo;
     Github.homepageUrl := Github.Node.homepageUrl repo;
     Github.languages := default [] (Github.Node.languages repo);
     Github.name := key_of repo;
     Github.nameWithOwner := Github.Node.nameWithOwner repo;
     Github.stargazerCount := default 0 (Github.Node.stargazerCount repo);
     Github.url := Github.Node.url repo;
     Github.isFork := Github.Node.isFork repo |}.

(** [repo] stands in [repos] with a name, and no node before it has the
    same lower-cased name. *)
Definition first_of_its_name (repos : list Github.Node.t) (repo : Github.Node.t)
  : Prop :=
  ∃ earlier later,
    repos = earlier ++ repo :: later
    ∧ Js.truthy (key_of repo) = true
    ∧ ∀ other, other ∈ earlier → key_of other ≠ key_of repo.

End MoreRoutines.

(** ** A concrete host and sample data for the examples *)

(** ASCII lower-casing and the order of the bytes stand in for the host's
    [toLowerCase] and [localeCompare]. *)
Definition ascii_lower (c : ascii) : ascii :=
  let n := N_of_ascii c in
  if (65 <=? n)%N && (n <=? 90)%N then ascii_of_N (n + 32) else c.

Fixpoint lower (s : string) : string :=
  match s with
  | EmptyString => EmptyString
  | String c s' => String (ascii_lower c) (lower s')
  end.

Definition byte_order (a b : string) : Z :=
  if String.eqb a b then 0 else if String.leb a b then -1 else 1.

Definition sample_locale : Locale :=
  {| toLowerCase := lower; localeCompare := byte_order |}.

Definition sample_caching : Caching :=
  {| REDIS_CACHE_DURATION := 3600; REQUEST_CACHE_DURATION := 60 |}.

(** *** A JSON host

    A printer and a parser for the texts the samples store: no control
    characters or [\u] escapes in strings, no fractions or exponents in
    numbers (such a text is refused). *)

Definition quote : ascii := ascii_of_nat 34.
Definition backslash : ascii := ascii_of_nat 92.

Fixpoint escape (s : string) : string :=
  match s with
  | EmptyString => EmptyString
  | String c s' =>
      if Ascii.eqb c quote || Ascii.eqb c backslash
      then String backslash (String c (escape s'))
      else String c (escape s')
  end.

Definition quoted (s : string) : string :=
  String quote (escape s +:+ String quote EmptyString).

(** [JSON.stringify] on the values of [JsVal.t]; [undefined] is printed as
    it is inside an array. *)
Fixpoint print (v : JsVal.t) : string :=
  match v with
  | JsVal.Undefined | JsVal.Null => "null"
  | JsVal.Bool b => if b then "true" else "false"
  | JsVal.Number n => pretty n
  | JsVal.Str s => quoted s
  | JsVal.Array items => "[" +:+ join "," (map print items) +:+ "]"
  | JsVal.Object fields =>
      "{" +:+ join "," (map (λ kv, quoted (fst kv) +:+ ":" +:+ print (snd kv))
                            fields)
      +:+ "}"
  end.

Definition is_space (c : ascii) : bool :=
  Ascii.eqb c " " || Ascii.eqb c (ascii_of_nat 9)
  || Ascii.eqb c (ascii_of_nat 10) || Ascii.eqb c (ascii_of_nat 13).

Fixpoint skip_spaces (s : string) : string :=
  match s with
  | String c s' => if is_space c then skip_spaces s' else s
  | EmptyString => s
  end.

Definition digit (c : ascii) : option Z :=
  let n := Z.of_nat (nat_of_ascii c) in
  if (48 <=? n) && (n <=? 57) then Some (n - 48) else None.

Fixpoint digits (acc : Z) (s : string) : Z * string :=
  match s with
  | String c s' =>
      match digit c with
      | Some d => digits (10 * acc + d) s'
      | None => (acc, s)
      end
  | EmptyString => (acc, s)
  end.

(** What may not follow the integer part here: a fraction, an exponent, or
    a digit after a leading zero. *)
Definition number_ends (s : string) : bool :=
  match s with
  | String c _ =>
      negb (Ascii.eqb c "." || Ascii.eqb c "e" || Ascii.eqb c "E"
            || bool_decide (is_Some (digit c)))
  | EmptyString => true
  end.

Definition unsigned (s : string) : option (Z * string) :=
  match s with
  | String c s' =>
      match digit c with
      | Some d =>
          let '(n, rest) := if d =? 0 then (0, s') else digits d s' in
          if number_ends rest then Some (n, rest) else None
      | None => None
      end
  | EmptyString => None
  end.

Definition number (s : string) : option (JsVal.t * string) :=
  match s with
  | String "-" s' => (λ nr, (JsVal.Number (- fst nr), snd nr)) <$> unsigned s'
  | _ => (λ nr, (JsVal.Number (fst nr), snd nr)) <$> unsigned s
  end.

Definition unescape (c : ascii) : option ascii :=
  if Ascii.eqb c quote || Ascii.eqb c backslash || Ascii.eqb c "/" then Some c
  else if Ascii.eqb c "n" then Some (ascii_of_nat 10)
  else if Ascii.eqb c "t" then Some (ascii_of_nat 9)
  else if Ascii.eqb c "r" then Some (ascii_of_nat 13)
  else if Ascii.eqb c "b" then Some (ascii_of_nat 8)
  else if Ascii.eqb c "f" then Some (ascii_of_nat 12)
  else None.

(** The rest of a string literal, after the opening quote. *)
Fixpoint literal (s : string) : option (string * string) :=
  match s with
  | EmptyString => None
  | String c s' =>
      if Ascii.eqb c quote then Some (EmptyString, s')
      else if Ascii.eqb c backslash then
        match s' with
        | String e s'' =>
            match unescape e with
            | Some c' => (λ tr, (String c' (fst tr), snd tr)) <$> literal s''
            | None => None
            end
        | EmptyString => None
        end
      else if (Z.of_nat (nat_of_ascii c) <? 32) then None
      else (λ tr, (String c (fst tr), snd tr)) <$> literal s'
  end.

Definition keyword (s : string) : option (JsVal.t * string) :=
  match s with
  | String "n" (String "u" (String "l" (String "l" rest))) =>
      Some (JsVal.Null, rest)
  | String "t" (String "r" (String "u" (String "e" rest))) =>
      Some (JsVal.Bool true, rest)
  | String "f" (String "a" (String "l" (String "s" (String "e" rest)))) =>
      Some (JsVal.Bool false, rest)
  | _ => number s
  end.

Fixpoint element (fuel : nat) (s : string) : option (JsVal.t * string) :=
  match fuel with
  | O => None
  | S fuel =>
      match skip_spaces s with
      | String c s' =>
          if Ascii.eqb c quote then
            (λ tr, (JsVal.Str (fst tr), snd tr)) <$> literal s'
          else if Ascii.eqb c "[" then
            match skip_spaces s' with
            | String "]" rest => Some (JsVal.Array [], rest)
            | _ => (λ vr, (JsVal.Array (fst vr), snd vr)) <$> elements fuel s'
            end
          else if Ascii.eqb c "{" then
            match skip_spaces s' with
            | String "}" rest => Some (JsVal.Object [], rest)
            | _ => (λ vr, (JsVal.Object (fst vr), snd vr)) <$> members fuel s'
            end
          else keyword (String c s')
      | EmptyString => None
      end
  end
with elements (fuel : nat) (s : string) : option (list JsVal.t * string) :=
  match fuel with
  | O => None
  | S fuel =>
      match element fuel s with
      | Some (v, rest) =>
          match skip_spaces rest with
          | String "," rest' =>
              (λ vr, (v :: fst vr, snd vr)) <$> elements fuel rest'
          | String "]" rest' => Some ([v], rest')
          | _ => None
          end
      | None => None
      end
  end
with members (fuel : nat) (s : string)
  : option (list (string * JsVal.t) * string) :=
  match fuel with
  | O => None
  | S fuel =>
      match skip_spaces s with
      | String c s' =>
          if Ascii.eqb c quote then
            match literal s' with
            | Some (k, rest) =>
                match skip_spaces rest with
                | String ":" rest' =>
                    match element fuel rest' with
                    | Some (v, rest'') =>
                        match skip_spaces rest'' with
                        | String "," more =>
                            (λ vr, ((k, v) :: fst vr, snd vr))
                              <$> members fuel more
                        | String "}" more => Some ([(k, v)], more)
                        | _ => None
                        end
                    | None => None
                    end
                | _ => None
                end
            | None => None
            end
          else None
      | EmptyString => None
      end
  end.

(** [JSON.parse]: one value, spaces around it, nothing else. *)
Definition parse (s : string) : option JsVal.t :=
  match element (3 * String.length s + 3) s with
  | Some (v, rest) =>
      match skip_spaces rest with
      | EmptyString => Some v
      | _ => None
      end
  | None => None
  end.

Definition sample_json : JsonParse := parse.

Definition optional (s : option string) : JsVal.t :=
  match s with Some s => JsVal.Str s | None => JsVal.Null end.

Definition package_value : AsValue Cargo.CargoPackage :=
  λ p, JsVal.Object [ ("name", JsVal.Str (Cargo.name p));
                      ("downloads", JsVal.Number (Cargo.downloads p)) ].

Definition language_value (l : Github.Language) : JsVal.t :=
  JsVal.Object [ ("color", JsVal.Str (Github.color l));
                 ("name", JsVal.Str (Github.language l)) ].

Definition project_value : AsValue Github.Project :=
  λ p, JsVal.Object
         [ ("description", optional (Github.description p));
           ("homepageUrl", optional (Github.homepageUrl p));
           ("languages", JsVal.Array (language_value <$> Github.languages p));
           ("name", optional (Github.name p));
           ("nameWithOwner", optional (Github.nameWithOwner p));
           ("stargazerCount", JsVal.Number (Github.stargazerCount p));
           ("url", optional (Github.url p));
           ("isFork", JsVal.Bool (Github.isFork p)) ].

Definition package_json : Json Cargo.CargoPackage := λ p, print (package_value p).
Definition project_json : Json Github.Project := λ p, print (project_value p).

Definition sample_config : Config :=
  {| upstashRedisRestUrl := "https://kv.example";
     upstashRedisRestToken := "kv-token";
     githubUsername := "octocat";
     githubApiKey := "gh-token";
     npmUsername := "octocat";
     leetcodeUsername := "octocat";
     cargoUserId := "42";
     stravaClientId := "1234";
     stravaClientSecret := "strava-secret";
     stravaRefreshToken := "configured-refresh-token" |}.

(** An empty store that answers, and a store that rejects every command. *)
Definition quiet {R} (replies : list (Settled R)) : World R :=
  mkWorld ∅ (λ _, false) [] replies [] [] ∅.

Definition down {R} (replies : list (Settled R)) : World R :=
  mkWorld ∅ (λ _, true) [] replies [] [] ∅.

(** A store that answers, with some content. *)
Definition stocked {R} (content : gmap string Entry) (replies : list (Settled R))
  : World R :=
  mkWorld content (λ _, false) [] replies [] [] ∅.

(** A store that reads but rejects the writes. *)
Definition read_only {R} (content : gmap string Entry) (replies : list (Settled R))
  : World R :=
  mkWorld content
    (λ c, match c with GET _ => false | _ => true end) [] replies [] [] ∅.

Definition serde : Cargo.CargoPackage := Cargo.mkPackage "serde" 5.
Definition anyhow : Cargo.CargoPackage := Cargo.mkPackage "anyhow" 5.
Definition tokio : Cargo.CargoPackage := Cargo.mkPackage "tokio" 9.

Definition cargo_page (crates : list Cargo.CargoPackage) (next : option string)
  : Settled Cargo.CargoResponse :=
  Fulfilled (Cargo.mkResponse (Some crates) (Some (Cargo.mkMeta next 3))).

Definition repo (nameWithOwner : string) (stars : Z) : Github.Node.t :=
  Github.Node.mk None None None None (Some nameWithOwner) (Some stars) None false.

Definition github_page (repos : list Github.Node.t) (more : bool)
    (cursor : option string) : Settled Github.Response :=
  Fulfilled (Some (Github.mkConnection (Some repos)
                     (Some (Github.mkPageInfo cursor more)))).

(** The record the contributions handler builds for [repo nameWithOwner stars]. *)
Definition contributed (nameWithOwner key : string) (stars : Z) : Github.Project :=
  Github.mkProject None None [] (Some key) (Some nameWithOwner) stars None false.

Definition upstream_down : Error := UpstreamError 503.

Definition new_tokens : Strava.TokenResponse :=
  Strava.mkTokens "new-access-token" "new-refresh-token".

Definition stored_refresh_token : gmap string Entry :=
  {[ "strava:refresh_token" := mkEntry "old-refresh-token" None ]}.

(** The second page of the crates of user 42, as an absolute URL. *)
Definition page_two : string :=
  "https://crates.io/api/v1/crates?page=2&per_page=10&sort=alpha&user_id=42".

(** The texts the handlers store for the lists [[serde]], [[a/a]] and
    [[s/s]]. *)
Definition serde_text : string := print (JsVal.Array [package_value serde]).
Definition contributed_text : string :=
  print (JsVal.Array [project_value (contributed "a/a" "a/a" 1)]).
Definition starred_text : string :=
  print (JsVal.Array [project_value (Github.shape (repo "s/s" 1))]).


(** Decimal digits stand in for the serialisation of a number. *)
Definition number_json : Json Z := pretty.

(** The sample configuration without a crates.io user. *)
Definition no_cargo_user : Config :=
  {| upstashRedisRestUrl := "https://kv.example";
     upstashRedisRestToken := "kv-token";
     githubUsername := "octocat";
     githubApiKey := "gh-token";
     npmUsername := "octocat";
     leetcodeUsername := "octocat";
     cargoUserId := EmptyString;
     stravaClientId := "1234";
     stravaClientSecret := "strava-secret";
     stravaRefreshToken := "configured-refresh-token" |}.

Definition cached_crates : gmap string Entry :=
  {[ "cargo:packages:42" := mkEntry serde_text (Some 3600) ]}.

Definition emptied_crates : gmap string Entry :=
  {[ "cargo:packages:42" := mkEntry EmptyString None ]}.

(** The text of the number zero under the key of the crates. *)
Definition zero_crates : gmap string Entry :=
  {[ "cargo:packages:42" := mkEntry "0" None ]}.

Definition cached_github : gmap string Entry :=
  {[ "github:contributions:octocat" := mkEntry contributed_text (Some 3600);
     "github:starred" := mkEntry starred_text (Some 3600) ]}.

(** A store that answers, except that it rejects [DEL github:starred]. *)
Definition starred_stuck {R} (content : gmap string Entry)
    (replies : list (Settled R)) : World R :=
  mkWorld content
    (λ c, match c with
          | DEL key => String.eqb key "github:starred"
          | _ => false
          end)
    [] replies [] [] ∅.

Definition first_crates : Cargo.CargoResponse :=
  Cargo.mkResponse (Some [serde]) (Some (Cargo.mkMeta (Some page_two) 3)).

Definition last_crates : Cargo.CargoResponse :=
  Cargo.mkResponse (Some [tokio]) (Some (Cargo.mkMeta None 3)).

(** What Strava answers to the exchange of a code. *)
Definition athlete_tokens : StravaCallback.StravaAuthResponse :=
  StravaCallback.mkAuth "first-access-token" "first-refresh-token"
    (Some (StravaCallback.mkAthlete (Some 7) "Ada" "Lovelace" "ada")).

(** ** Tactics *)

(** Running a handler: the monad and the effects are unfolded, the world
    stays a record of its fields. *)
Ltac run :=
  cbv [settle catch bind ret throw modify issue kv_get kv_setex kv_mset kv_del
       fetch console_info console_error setResponseHeader push_journal
       set_entries set_upstream push_sent push_console set_header
       entries outage journal upstream sent console headers].

(** * Properties *)

(** ** The invalidation endpoint *)

Section InvalidateFacts.
Context {R : Type}.
Implicit Type w : World R.

Lemma settle_del (k : string) w :
  settle (kv_del k) w = (Returned (del_result w k), after_del [k] w).
Proof.
  destruct w as [en out jn up sn co hd].
  unfold del_result, after_del. run. simpl.
  destruct (out (DEL k)); reflexivity.
Qed.

Lemma allSettled_del (ks : list string) w :
  allSettled (kv_del <$> ks) w = (Returned (del_result w <$> ks), after_del ks w).
Proof.
  revert w. induction ks as [|k ks IH]; intros w.
  - destruct w. unfold after_del. simpl. by rewrite app_nil_r.
  - cbn [fmap list_fmap allSettled]. unfold bind at 1. rewrite settle_del.
    unfold bind at 1. rewrite IH. destruct w as [en out jn up sn co hd].
    unfold ret, after_del, del_result. simpl. by rewrite <- app_assoc.
Qed.

Lemma del_results_partition w (ks : list string) :
  (length (filter (λ r, is_fulfilled r = true) (del_result w <$> ks))
   + length (filter (λ r, is_rejected r = true) (del_result w <$> ks))
   = length ks)%nat.
Proof.
  induction ks as [|k ks IH]; [done|].
  cbn [fmap list_fmap]. unfold del_result at 1 3.
  destruct (outage w (DEL k)); rewrite !filter_cons; simpl;
    repeat case_decide; try done; simpl; lia.
Qed.

Lemma all_keys_NoDup (config : Config) :
  NoDup (concat (Js.values (Invalidate.cacheKeys config))).
Proof.
  unfold Js.values. simpl. cbv [String.append].
  repeat (apply NoDup_cons_2;
          [ rewrite ?not_elem_of_cons, ?elem_of_nil; intuition congruence | ]).
  apply NoDup_nil_2.
Qed.

Lemma del_results_fulfilled w (ks : list string) :
  length (filter (λ r, is_fulfilled r = true) (del_result w <$> ks))
  = length (filter (λ k, outage w (DEL k) = false) ks).
Proof.
  induction ks as [|k ks IH]; [done|].
  cbn [fmap list_fmap]. destruct (outage w (DEL k)) eqn:Hk.
  - rewrite !filter_cons_False; [done|congruence|].
    unfold del_result. by rewrite Hk.
  - rewrite !filter_cons_True; [simpl; by rewrite IH|done|].
    unfold del_result. by rewrite Hk.
Qed.

Lemma values_concat_elem (config : Config) (k : string) :
  k ∈ concat (Js.values (Invalidate.cacheKeys config))
  ↔ ∃ service ks, (service, ks) ∈ Invalidate.cacheKeys config ∧ k ∈ ks.
Proof.
  split.
  - intros Hk. apply list_elem_of_In, in_concat in Hk as (ks & Hks & Hk).
    apply list_elem_of_In in Hks, Hk.
    unfold Js.values in Hks. apply list_elem_of_fmap in Hks as ([s ks'] & -> & Hin).
    by exists s, ks'.
  - intros (s & ks & Hin & Hk). apply list_elem_of_In, in_concat.
    exists ks. split; apply list_elem_of_In; [|done].
    unfold Js.values. apply list_elem_of_fmap. by exists (s, ks).
Qed.

(** A target outside the enumeration and outside [Object.prototype] gets
    the error object that lists the six names, and the world is as it
    was. *)
Lemma invalidate_unknown_target (config : Config) (t : string) w :
  t ∉ valid_targets → t ∉ Js.Object_prototype →
  Invalidate.handler config (Some t) w =
    (Returned (Invalidate.Failure {|
       Invalidate.error_message :=
         "Invalid target. Use: github, strava, wakatime, npm, leetcode, or all";
       Invalidate.available := valid_targets |}), w).
Proof.
  intros Hv Hp. unfold valid_targets in Hv.
  rewrite !not_elem_of_cons in Hv. destruct Hv as (Hg & Hs & Hw & Hn & Hl & Ha & _).
  unfold Invalidate.handler, Invalidate.keysToDelete, Js.has, Js.own.
  cbn [Invalidate.cacheKeys find fst snd].
  apply String.eqb_neq in Hg, Hs, Hw, Hn, Hl, Ha.
  rewrite Hg, Hs, Hw, Hn, Hl, Ha. cbn [fmap option_fmap option_map].
  rewrite bool_decide_eq_false_2 by done. by rewrite andb_false_r.
Qed.

Lemma invalidate_absent_target (config : Config) w :
  Invalidate.handler config None w =
    (Returned (Invalidate.Failure {|
       Invalidate.error_message :=
         "Invalid target. Use: github, strava, wakatime, npm, leetcode, or all";
       Invalidate.available := valid_targets |}), w).
Proof. reflexivity. Qed.

(** No target outside the enumeration deletes anything: whatever the
    handler answers, the world is as it was. *)
Lemma invalidate_invalid_target_deletes_nothing (config : Config) (t : string) w :
  t ∉ valid_targets → snd (Invalidate.handler config (Some t) w) = w.
Proof.
  intros Hv. destruct (decide (t ∈ Js.Object_prototype)) as [Hp|Hp].
  - unfold Js.Object_prototype in Hp. rewrite !elem_of_cons, elem_of_nil in Hp.
    repeat (destruct Hp as [->|Hp]; [reflexivity|]). done.
  - by rewrite invalidate_unknown_target.
Qed.

(** C5, where the code departs from it, at the request [?target=toString]:
    the name is not one of the six targets, yet [target in cacheKeys] holds
    through the prototype of the object literal, [keysToDelete] becomes a
    function, and the handler throws a [TypeError] where the error object
    listing the targets is due.  Nothing is deleted.  The same goes for every
    name an object literal inherits. *)
Theorem invalidate_inherited_target_throws (config : Config) w :
  ("toString" ∉ valid_targets)
  ∧ Invalidate.handler config (Some "toString") w =
      (Threw (TypeError "keysToDelete.map is not a function"), w)
  ∧ Forall (λ t, (t ∉ valid_targets)
                 ∧ Invalidate.handler config (Some t) w =
                     (Threw (TypeError "keysToDelete.map is not a function"), w))
           Js.Object_prototype.
Proof.
  assert (∀ t, bool_decide (t ∈ valid_targets) = false → t ∉ valid_targets) as Hout.
  { intros t. apply bool_decide_eq_false_1. }
  split; [by apply Hout|]. split; [reflexivity|].
  repeat (constructor; [split; [by apply Hout|reflexivity]|]). constructor.
Qed.

(** C9: with the target [all] the handler issues one [DEL] for each key of
    the five services, in the order of the table; the list has no key
    twice, so the two counts add up to the number of keys and each key is
    counted once. *)
Theorem invalidate_all_is_union (config : Config) w :
  ∃ r : Invalidate.Completed,
    fst (Invalidate.handler config (Some "all") w)
      = Returned (Invalidate.Success r)
    ∧ journal (snd (Invalidate.handler config (Some "all") w))
      = journal w ++ (DEL <$> Invalidate.keys r)
    ∧ (∀ k, k ∈ Invalidate.keys r
            ↔ ∃ service ks,
                (service, ks) ∈ Invalidate.cacheKeys config ∧ k ∈ ks)
    ∧ NoDup (Invalidate.keys r)
    ∧ Invalidate.deleted r
      = length (filter (λ k, outage w (DEL k) = false) (Invalidate.keys r))
    ∧ (Invalidate.deleted r + Invalidate.failed r
       = length (Invalidate.keys r))%nat.
Proof.
  set (ks := concat (Js.values (Invalidate.cacheKeys config))).
  assert (Invalidate.keysToDelete config (Some "all") = Some (Js.Arr ks)) as Hk
    by reflexivity.
  unfold Invalidate.handler. rewrite Hk. unfold bind.
  rewrite allSettled_del. unfold ret. eexists. cbn [fst snd].
  split; [reflexivity|]. cbn [Invalidate.keys Invalidate.deleted Invalidate.failed].
  split; [reflexivity|].
  split; [apply values_concat_elem|].
  split; [apply all_keys_NoDup|].
  split; [apply del_results_fulfilled|apply del_results_partition].
Qed.

End InvalidateFacts.

(** ** [Array.prototype.sort] *)

Section SortFacts.
Context {A : Type} (cmp : A → A → Z).

Lemma insert_Permutation (x : A) (l : list A) : Js.insert cmp x l ≡ₚ x :: l.
Proof.
  induction l as [|y l IH]; simpl; [done|].
  destruct (cmp x y <=? 0); [done|]. by rewrite IH, Permutation_swap.
Qed.

Lemma sort_Permutation (l : list A) : Js.sort cmp l ≡ₚ l.
Proof.
  induction l as [|x l IH]; simpl; [done|].
  by rewrite insert_Permutation, IH.
Qed.

Lemma sort_nil_iff (l : list A) : Js.sort cmp l = [] ↔ l = [].
Proof.
  split; [|by intros ->]. intros Hs.
  apply Permutation_nil_r. rewrite <- Hs. symmetry. apply sort_Permutation.
Qed.

(** Stability: elements that the comparator does not tell apart keep
    their order.  [P] picks out such a class. *)
Lemma filter_insert_in (P : A → Prop) `{∀ a, Decision (P a)} x l :
  (∀ a b, P a → P b → cmp a b <= 0) →
  P x → filter P (Js.insert cmp x l) = x :: filter P l.
Proof.
  intros Hclass Hx. induction l as [|y l IH]; simpl.
  - by rewrite filter_cons_True.
  - destruct (cmp x y <=? 0) eqn:Hxy.
    + by rewrite (filter_cons_True P x).
    + assert (¬ P y) as Hy.
      { intros Hy. specialize (Hclass x y Hx Hy). lia. }
      by rewrite !(filter_cons_False P y), IH.
Qed.

Lemma filter_insert_out (P : A → Prop) `{∀ a, Decision (P a)} x l :
  ¬ P x → filter P (Js.insert cmp x l) = filter P l.
Proof.
  intros Hx. induction l as [|y l IH]; simpl.
  - by rewrite filter_cons_False.
  - destruct (cmp x y <=? 0).
    + by rewrite (filter_cons_False P x).
    + rewrite !(filter_cons P y). by rewrite IH.
Qed.

Lemma sort_stable (P : A → Prop) `{∀ a, Decision (P a)} l :
  (∀ a b, P a → P b → cmp a b <= 0) →
  filter P (Js.sort cmp l) = filter P l.
Proof.
  intros Hclass. induction l as [|x l IH]; simpl; [done|].
  destruct (decide (P x)) as [Hx|Hx].
  - by rewrite filter_insert_in, filter_cons_True, IH.
  - by rewrite filter_insert_out, filter_cons_False, IH.
Qed.

Section Consistent.
(** A consistent comparator: of two elements one may stand in front of
    the other, and standing in front is transitive. *)
Hypothesis cmp_total : ∀ a b, before cmp a b ∨ before cmp b a.
Hypothesis cmp_trans : ∀ a b c, before cmp a b → before cmp b c → before cmp a c.

Lemma insert_Sorted (x : A) (l : list A) :
  Sorted (before cmp) l → Sorted (before cmp) (Js.insert cmp x l).
Proof.
  induction 1 as [|y l Hl IH Hhd]; simpl.
  - by repeat constructor.
  - destruct (cmp x y <=? 0) eqn:Hxy.
    + constructor; [by constructor|]. constructor. unfold before. lia.
    + constructor; [done|].
      assert (before cmp y x) as Hyx.
      { destruct (cmp_total x y) as [Hb|Hb]; [|done]. unfold before in Hb. lia. }
      destruct Hhd as [|z l Hyz]; simpl; [by constructor|].
      destruct (cmp x z <=? 0); by constructor.
Qed.

Lemma sort_Sorted (l : list A) : Sorted (before cmp) (Js.sort cmp l).
Proof.
  induction l as [|x l IH]; simpl; [constructor|]. by apply insert_Sorted.
Qed.

Lemma sort_StronglySorted (l : list A) : StronglySorted (before cmp) (Js.sort cmp l).
Proof.
  apply Sorted.Sorted_StronglySorted; [|apply sort_Sorted].
  intros a b c. apply cmp_trans.
Qed.

(** Where the order tells the elements of a list apart, the sorted list
    depends on the elements only, not on the order they came in. *)
Lemma sort_determined (l1 l2 : list A) :
  (∀ a b, a ∈ l1 → b ∈ l1 → before cmp a b → before cmp b a → a = b) →
  l1 ≡ₚ l2 → Js.sort cmp l1 = Js.sort cmp l2.
Proof.
  intros Hanti Hperm.
  apply (StronglySorted_unique_strong (before cmp)); try apply sort_StronglySorted.
  - intros a b Ha Hb. rewrite sort_Permutation in Ha.
    rewrite sort_Permutation, <- Hperm in Hb. by apply Hanti.
  - by rewrite !sort_Permutation.
Qed.
End Consistent.
End SortFacts.


(** ** The cache-aside wrapper *)

Section StoreFacts.
Context {R : Type} `{Caching} `{JsonParse}.
Implicit Type w : World R.

Lemma bind_ext {A B} (m : Async R A) (k1 k2 : A → Async R B) w :
  (∀ a w', k1 a w' = k2 a w') → bind m k1 w = bind m k2 w.
Proof. intros Hk. unfold bind. by destruct (m w) as [[a|e|] w']. Qed.

Lemma catch_get (key : string) w :
  catch (kv_get key) (λ _, ret JsVal.Undefined) w
  = (Returned (reads key w), push_journal (GET key) w).
Proof.
  destruct w as [en out jn up sn co hd]. unfold reads. run. simpl.
  destruct (out (GET key)); reflexivity.
Qed.

Lemma catch_setex (key v : string) w :
  catch (kv_setex key REDIS_CACHE_DURATION v) (λ _, ret tt) w
  = (Returned tt, write_back key v w).
Proof.
  destruct w as [en out jn up sn co hd]. unfold write_back. run. simpl.
  destruct (out (SETEX key REDIS_CACHE_DURATION v)); reflexivity.
Qed.

Lemma emitted_nil w : emitted w [] (upstream w) = w.
Proof. destruct w. unfold emitted. simpl. by rewrite app_nil_r. Qed.

Lemma emitted_step (q : Request) w qs rest rest' :
  emitted (set_upstream rest (push_sent q w)) qs rest' = emitted w (q :: qs) rest'.
Proof. unfold emitted. simpl. by rewrite <- app_assoc. Qed.

Lemma fetch_upstream_only (q : Request) : upstream_only (fetch (R:=R) q).
Proof.
  exists (λ script, match script with
                    | [] => (Pending, [q], [])
                    | Fulfilled r :: rest => (Returned r, [q], rest)
                    | Rejected e :: rest => (Threw e, [q], rest)
                    end).
  intros [en out jn up sn co hd]. unfold fetch. simpl.
  by destruct up as [|[r|e] rest].
Qed.

Lemma bind_ret_upstream_only {A B} (m : Async R A) (g : A → B) :
  upstream_only m → upstream_only (let* a := m in ret (g a)).
Proof.
  intros [f Hf].
  exists (λ script, match f script with
                    | (Returned a, qs, rest) => (Returned (g a), qs, rest)
                    | (Threw e, qs, rest) => (Threw e, qs, rest)
                    | (Pending, qs, rest) => (Pending, qs, rest)
                    end).
  intros w. unfold bind. rewrite Hf.
  by destruct (f (upstream w)) as [[[a|e|] qs] rest].
Qed.

Section UpstreamOnly.
Context {A : Type} (m : Async R A) (Hm : upstream_only m).

Lemma upstream_only_push_journal (c : Command) w :
  m (push_journal c w) = (fst (m w), push_journal c (snd (m w))).
Proof.
  destruct Hm as [f Hf]. rewrite !Hf. cbn [upstream push_journal].
  by destruct (f (upstream w)) as [[o qs] rest].
Qed.

Lemma upstream_only_store w :
  entries (snd (m w)) = entries w
  ∧ outage (snd (m w)) = outage w
  ∧ journal (snd (m w)) = journal w.
Proof.
  destruct Hm as [f Hf]. rewrite Hf.
  by destruct (f (upstream w)) as [[o qs] rest].
Qed.

End UpstreamOnly.
End StoreFacts.

Section CacheAsideFacts.
Context {R A : Type} `{Caching} `{JsonParse} `{Json A} `{AsValue A}.
Context (key : string) (routine : Async R (list A)).
Hypothesis routine_upstream_only : upstream_only routine.
Implicit Type w : World R.

Lemma cache_aside_hit w :
  JsVal.truthy (reads key w) = true →
  cache_aside key routine w = (Returned (Cached (reads key w)), served key w).
Proof.
  intros Hread. unfold cache_aside, bind at 1. by rewrite catch_get, Hread.
Qed.

Lemma cache_aside_miss w :
  JsVal.truthy (reads key w) = false →
  cache_aside key routine w =
    match routine w with
    | (Returned items, w') => (Returned (Fresh items), missed key items w')
    | (Threw e, w') => (Threw e, push_journal (GET key) w')
    | (Pending, w') => (Pending, push_journal (GET key) w')
    end.
Proof.
  intros Hread. unfold cache_aside, bind at 1. rewrite catch_get, Hread.
  unfold bind at 1. rewrite upstream_only_push_journal by done.
  destruct (routine w) as [[items|e|] w']; cbn [fst snd]; try done.
  unfold missed, persist. destruct items as [|p items].
  - reflexivity.
  - unfold bind at 1. by rewrite catch_setex.
Qed.

Lemma cache_aside_miss_outcome w :
  JsVal.truthy (reads key w) = false →
  fst (cache_aside key routine w) = fresh (fst (routine w)).
Proof.
  intros Hread. rewrite cache_aside_miss by done.
  by destruct (routine w) as [[items|e|] w'].
Qed.

Lemma reads_outage w :
  outage w (GET key) = true → reads key w = JsVal.Undefined.
Proof. unfold reads. by intros ->. Qed.

(** The journal and the store after a miss. *)
Lemma cache_aside_miss_store w :
  JsVal.truthy (reads key w) = false →
  match fst (routine w) with
  | Returned ((_ :: _) as items) =>
      journal (snd (cache_aside key routine w))
        = journal w ++ [GET key; SETEX key REDIS_CACHE_DURATION (stringify items)]
      ∧ entries (snd (cache_aside key routine w))
        = if outage w (SETEX key REDIS_CACHE_DURATION (stringify items))
          then entries w
          else <[key := mkEntry (stringify items) (Some REDIS_CACHE_DURATION)]>
                 (entries w)
  | _ =>
      journal (snd (cache_aside key routine w)) = journal w ++ [GET key]
      ∧ entries (snd (cache_aside key routine w)) = entries w
  end.
Proof.
  intros Hread. rewrite cache_aside_miss by done.
  destruct (upstream_only_store routine routine_upstream_only w)
    as (Hen & Hout & Hjn).
  destruct (routine w) as [[[|p items]|e|] w']; cbn [fst snd] in *;
    unfold missed, persist, write_back; simpl; rewrite ?Hjn, ?Hen; try done.
  rewrite Hout.
  destruct (outage w (SETEX key REDIS_CACHE_DURATION (stringify (p :: items))));
    simpl; rewrite Hjn, Hen, <- app_assoc; done.
Qed.

Lemma cache_aside_hit_store w :
  JsVal.truthy (reads key w) = true →
  journal (snd (cache_aside key routine w)) = journal w ++ [GET key]
  ∧ entries (snd (cache_aside key routine w)) = entries w.
Proof. intros Hread. by rewrite cache_aside_hit. Qed.

Lemma reads_entry w entry :
  outage w (GET key) = false → entries w !! key = Some entry →
  reads key w = deserialize (value entry).
Proof. intros Hout Hentry. unfold reads. by rewrite Hout, Hentry. Qed.

(** The four properties of a data endpoint, for any handler that is the
    wrapper around its routine. *)
Section Handler.
Variable handler : Async R (Body A).
Hypothesis handler_cache_aside : ∀ w, handler w = cache_aside key routine w.

Lemma handler_round_trips : round_trips handler key routine.
Proof.
  split.
  - intros w entry Hout Hentry Htruthy.
    rewrite handler_cache_aside, cache_aside_hit;
      rewrite (reads_entry w entry) by done; done.
  - intros w items w' Hmiss Hrun Hitems Hwrite Hsame Hread Hparse.
    pose proof (cache_aside_miss_store w Hmiss) as Hstore.
    rewrite Hrun in Hstore. destruct items as [|p items]; [done|].
    destruct Hstore as [_ Hen]. rewrite Hwrite in Hen.
    assert (entries w' !! key
            = Some (mkEntry (stringify (p :: items)) (Some REDIS_CACHE_DURATION)))
      as Hentry.
    { by rewrite Hsame, handler_cache_aside, Hen, lookup_insert_eq. }
    split; [by rewrite Hentry|].
    assert (reads key w' = as_value (p :: items)) as Hvalue.
    { rewrite (reads_entry w' _ Hread Hentry). unfold deserialize.
      cbn [value]. by rewrite Hparse. }
    rewrite handler_cache_aside, cache_aside_hit; by rewrite Hvalue.
Qed.

Lemma handler_swallows_store_errors : swallows_store_errors handler key routine.
Proof.
  split.
  - intros w Hout. rewrite handler_cache_aside.
    apply cache_aside_miss_outcome. by rewrite reads_outage.
  - intros w items Hmiss Hrun Hwrite. rewrite handler_cache_aside.
    rewrite cache_aside_miss_outcome, Hrun by done. split; [done|].
    pose proof (cache_aside_miss_store w Hmiss) as Hstore.
    rewrite Hrun in Hstore. destruct items as [|p items]; [apply Hstore|].
    destruct Hstore as [_ ->]. by rewrite Hwrite.
Qed.

Lemma handler_propagates_fetch_errors : propagates_fetch_errors handler key routine.
Proof.
  intros w e Hmiss Hrun. rewrite handler_cache_aside.
  rewrite cache_aside_miss_outcome, Hrun by done. split; [done|].
  pose proof (cache_aside_miss_store w Hmiss) as Hstore.
  rewrite Hrun in Hstore. by destruct Hstore.
Qed.

Lemma handler_skips_empty_write : skips_empty_write handler key routine.
Proof.
  split.
  - intros w Hmiss Hrun. rewrite handler_cache_aside.
    rewrite cache_aside_miss_outcome, Hrun by done. split; [done|].
    pose proof (cache_aside_miss_store w Hmiss) as Hstore.
    rewrite Hrun in Hstore. by destruct Hstore.
  - intros w k s v. rewrite handler_cache_aside.
    assert (∀ l : list Command, SETEX k s v ∈ l ++ [GET key] → SETEX k s v ∈ l)
      as Hget.
    { intros l [?|Hnew]%elem_of_app; [done|].
      by apply list_elem_of_singleton in Hnew. }
    destruct (JsVal.truthy (reads key w)) eqn:Hmiss.
    + destruct (cache_aside_hit_store w Hmiss) as [-> _]. auto.
    + pose proof (cache_aside_miss_store w Hmiss) as Hstore.
      destruct (fst (routine w)) as [[|p items]|e|];
        destruct Hstore as [-> _]; auto.
      intros [?|Hnew]%elem_of_app; [by left|]. right. exists (p :: items).
      split; [done|].
      apply elem_of_cons in Hnew as [?|Hnew]; [done|].
      apply list_elem_of_singleton in Hnew. by simplify_eq.
Qed.

End Handler.
End CacheAsideFacts.

(** ** The requests of a miss *)

Section CacheAsideWorld.
Context {R A : Type} `{Caching} `{JsonParse} `{Json A}.
Context (key : string) (routine : Async R (list A)).
Hypothesis routine_upstream_only : upstream_only routine.
Implicit Type w : World R.

Lemma sent_missed (items : list A) w : sent (missed key items w) = sent w.
Proof.
  unfold missed, persist, write_back. destruct items as [|p items]; [done|].
  simpl. by destruct (outage w _).
Qed.

Lemma upstream_missed (items : list A) w :
  upstream (missed key items w) = upstream w.
Proof.
  unfold missed, persist, write_back. destruct items as [|p items]; [done|].
  simpl. by destruct (outage w _).
Qed.

(** On a miss the requests sent and the replies left are those of the
    routine. *)
Lemma cache_aside_miss_upstream w :
  JsVal.truthy (reads key w) = false →
  sent (snd (cache_aside key routine w)) = sent (snd (routine w))
  ∧ upstream (snd (cache_aside key routine w)) = upstream (snd (routine w)).
Proof.
  intros Hmiss. rewrite cache_aside_miss by done.
  destruct (routine w) as [[items|e|] w']; cbn [fst snd]; [|done..].
  split; [apply sent_missed|apply upstream_missed].
Qed.

End CacheAsideWorld.


(** ** The crates.io endpoint *)

Section CargoFacts.
Context `{Caching} `{JsonParse} `{Json Cargo.CargoPackage}.
Implicit Type w : World Cargo.CargoResponse.

Lemma cargo_collect_stop script url packages :
  Js.truthy url = false →
  cargo_collect script url packages = (Returned packages, [], script).
Proof. by destruct url as [[|c u]|], script. Qed.

Lemma cargo_loop_collect (fuel : nat) url packages w :
  (length (upstream w) < fuel)%nat →
  Cargo.loop fuel url packages w =
    let '(o, qs, rest) := cargo_collect (upstream w) url packages in
    (o, emitted w qs rest).
Proof.
  revert url packages w. induction fuel as [|fuel IH]; intros url packages w Hlen.
  { lia. }
  destruct url as [[|c u]|].
  - rewrite cargo_collect_stop by done. simpl. unfold ret. by rewrite emitted_nil.
  - simpl. unfold bind, fetch.
    destruct (upstream w) as [|[response|e] rest] eqn:Hup; simpl.
    + destruct w; simpl in *; by subst.
    + rewrite IH by (simpl in *; lia). cbn [upstream set_upstream].
      destruct (cargo_collect rest _ _) as [[o qs] rest'].
      by rewrite emitted_step.
    + destruct w; simpl in *; by subst.
  - rewrite cargo_collect_stop by done. simpl. unfold ret. by rewrite emitted_nil.
Qed.

Lemma cargo_pages_collect url packages w :
  Cargo.pages url packages w =
    let '(o, qs, rest) := cargo_collect (upstream w) url packages in
    (o, emitted w qs rest).
Proof. unfold Cargo.pages. apply cargo_loop_collect. lia. Qed.

Lemma cargo_pages_upstream_only url packages :
  upstream_only (Cargo.pages url packages).
Proof. exists (λ script, cargo_collect script url packages). apply cargo_pages_collect. Qed.

Lemma cargo_routine_upstream_only (config : Config) :
  upstream_only (cargo_routine config).
Proof. apply bind_ret_upstream_only, cargo_pages_upstream_only. Qed.

Lemma cargo_handler_cache_aside (config : Config) w :
  Cargo.handler config w
  = cache_aside (Cargo.cacheKey config) (cargo_routine config) w.
Proof.
  apply bind_ext. intros cached w1.
  destruct (JsVal.truthy cached); [reflexivity|].
  unfold cargo_routine, bind, ret;
    by destruct (Cargo.pages _ _ w1) as [[acc|e|] w2].
Qed.

(** The loop follows the reply: with a truthy [url] and a reply at hand,
    the request goes to [url] and the loop continues from the [next_page] of
    the reply, the crates of the reply appended. *)
Lemma cargo_pages_next c u packages w response rest :
  upstream w = Fulfilled response :: rest →
  Cargo.pages (Some (String c u)) packages w =
    Cargo.pages (Cargo.meta response ≫= Cargo.next_page)
      (packages ++ page_crates response)
      (set_upstream rest (push_sent (Cargo.request (String c u)) w)).
Proof.
  intros Hup. rewrite !cargo_pages_collect, Hup. cbn [upstream set_upstream].
  cbn [cargo_collect]. unfold page_crates.
  assert (match Cargo.crates response with
          | Some crates => packages ++ crates
          | None => packages
          end = packages ++ default [] (Cargo.crates response)) as ->.
  { destruct (Cargo.crates response); simpl; by rewrite ?app_nil_r. }
  destruct (cargo_collect rest _ _) as [[o qs] rest'].
  by rewrite emitted_step.
Qed.

(** The loop stops, without a request, exactly when there is no next page. *)
Lemma cargo_pages_stop url packages w :
  Js.truthy url = false → Cargo.pages url packages w = (Returned packages, w).
Proof.
  intros Hurl. rewrite cargo_pages_collect, cargo_collect_stop by done.
  by rewrite emitted_nil.
Qed.

(** What a run of the loop that returns has read: the crates of the replies
    used, in the order of the replies. *)
Lemma cargo_collect_returned script url packages items qs rest :
  cargo_collect script url packages = (Returned items, qs, rest) →
  ∃ consumed : list Cargo.CargoResponse,
    script = (Fulfilled <$> consumed) ++ rest
    ∧ items = packages ++ concat (page_crates <$> consumed).
Proof.
  revert url packages items qs rest.
  induction script as [|[response|e] script IH]; intros url packages items qs rest Hrun.
  - destruct url as [[|c u]|]; simplify_eq/=; exists []; simpl; by rewrite app_nil_r.
  - destruct url as [[|c u]|]; simpl in Hrun.
    1,3: simplify_eq; exists []; simpl; by rewrite app_nil_r.
    destruct (cargo_collect script _ _) as [[o qs'] rest'] eqn:Hrec.
    simplify_eq. apply IH in Hrec as (consumed & -> & ->).
    exists (response :: consumed). split; [done|].
    simpl. unfold page_crates at 2.
    destruct (Cargo.crates response); simpl; by rewrite <- ?app_assoc.
  - destruct url as [[|c u]|]; simplify_eq/=; exists []; simpl; by rewrite app_nil_r.
Qed.

Lemma cargo_crates_app packages response :
  match Cargo.crates response with
  | Some crates => packages ++ crates
  | None => packages
  end = packages ++ page_crates response.
Proof. unfold page_crates. destruct (Cargo.crates response); simpl; by rewrite ?app_nil_r. Qed.

(** Enough replies give the result: a listing that ends is read to its end
    and the crates of its pages are returned in order. *)
Lemma cargo_collect_listing init last rest url packages :
  Js.truthy url = true →
  Forall (λ r, cargo_more r = true) init → cargo_more last = false →
  ∃ qs,
    cargo_collect ((Fulfilled <$> init ++ [last]) ++ rest) url packages
    = (Returned (packages ++ concat (page_crates <$> init ++ [last])), qs, rest).
Proof.
  revert url packages.
  induction init as [|r init IH]; intros url packages Hurl Hinit Hlast;
    destruct url as [[|c u]|]; try done.
  - simpl. unfold cargo_more in Hlast. rewrite cargo_collect_stop by done.
    eexists. by rewrite cargo_crates_app, app_nil_r.
  - apply Forall_cons in Hinit as [Hr Hinit].
    destruct (IH (Cargo.meta r ≫= Cargo.next_page)
                (match Cargo.crates r with
                 | Some crates => packages ++ crates
                 | None => packages
                 end) Hr Hinit Hlast) as [qs Hqs].
    cbn [app]. rewrite !fmap_cons. cbn [app cargo_collect concat]. rewrite Hqs.
    eexists. by rewrite cargo_crates_app, <- app_assoc.
Qed.

Lemma cargo_more_next_url (r : Cargo.CargoResponse) :
  cargo_more r = true → Cargo.meta r ≫= Cargo.next_page = Some (next_url r).
Proof.
  unfold cargo_more, next_url.
  by destruct (Cargo.meta r ≫= Cargo.next_page) as [[|c u]|].
Qed.

Lemma cargo_collect_listing_requests init last rest (u : string) packages :
  Js.truthy (Some u) = true →
  Forall (λ r, cargo_more r = true) init → cargo_more last = false →
  cargo_collect ((Fulfilled <$> init ++ [last]) ++ rest) (Some u) packages
  = (Returned (packages ++ concat (page_crates <$> init ++ [last])),
     Cargo.request <$> u :: (next_url <$> init), rest).
Proof.
  revert u packages.
  induction init as [|r init IH]; intros u packages Hu Hinit Hlast;
    destruct u as [|c u]; try done.
  - simpl. unfold cargo_more in Hlast. rewrite cargo_collect_stop by done.
    by rewrite cargo_crates_app, app_nil_r.
  - apply Forall_cons in Hinit as [Hr Hinit].
    cbn [app]. rewrite !fmap_cons. cbn [app cargo_collect concat].
    rewrite (cargo_more_next_url r Hr).
    rewrite (IH (next_url r)); [|by rewrite <- cargo_more_next_url|done..].
    by rewrite cargo_crates_app, <- app_assoc.
Qed.

(** A listing that breaks off: the crates read so far are lost, the
    rejected request is the last one sent. *)
Lemma cargo_collect_breaks init e rest (u : string) packages :
  Js.truthy (Some u) = true →
  Forall (λ r, cargo_more r = true) init →
  cargo_collect ((Fulfilled <$> init) ++ Rejected e :: rest) (Some u) packages
  = (Threw e, Cargo.request <$> u :: (next_url <$> init), rest).
Proof.
  revert u packages.
  induction init as [|r init IH]; intros u packages Hu Hinit;
    destruct u as [|c u]; try done.
  apply Forall_cons in Hinit as [Hr Hinit].
  rewrite fmap_cons. cbn [app cargo_collect].
  rewrite (cargo_more_next_url r Hr).
  rewrite (IH (next_url r)); [done|by rewrite <- cargo_more_next_url|done].
Qed.

Lemma cargo_returns (config : Config) w listing :
  JsVal.truthy (reads (Cargo.cacheKey config) w) = false →
  Js.truthy (Cargo.first_url config) = true →
  serves cargo_more w listing →
  fst (Cargo.handler config w)
  = Returned (Fresh (Js.sort Cargo.by_downloads (concat (page_crates <$> listing)))).
Proof.
  intros Hmiss Hurl (init & last & rest & -> & Hup & Hinit & Hlast).
  rewrite cargo_handler_cache_aside, cache_aside_miss_outcome;
    [|apply cargo_routine_upstream_only|done].
  unfold cargo_routine, bind, ret. rewrite cargo_pages_collect, Hup.
  by destruct (cargo_collect_listing init last rest _ [] Hurl Hinit Hlast) as [qs ->].
Qed.

End CargoFacts.

(** ** The GitHub endpoints *)

Section GithubFacts.
Context `{Caching} `{JsonParse} `{Locale} `{Json Github.Project}.
Implicit Type w : World Github.Response.

Lemma github_loop_collect (fuel : nat) config projects seenProjects cursor w :
  (length (upstream w) < fuel)%nat →
  Github.loop fuel config projects seenProjects cursor w =
    let '(o, qs, rest) := github_collect config (upstream w) (projects, seenProjects) in
    (o, emitted w qs rest).
Proof.
  revert projects seenProjects cursor w.
  induction fuel as [|fuel IH]; intros projects seenProjects cursor w Hlen.
  { lia. }
  destruct w as [en out jn up sn co hd]. simpl in Hlen.
  cbn [Github.loop]. unfold bind, fetch. cbn [upstream].
  destruct up as [|[response|e] rest]; [reflexivity| |reflexivity].
  cbn [github_collect]. unfold goes_on, absorb.
  destruct (match response ≫= Github.nodes with
            | Some ((_ :: _) as repos) =>
                foldl Github.visit (projects, seenProjects) repos
            | _ => (projects, seenProjects)
            end) as [projects' seen'].
  destruct (default false (Github.hasNextPage <$> (response ≫= Github.pageInfo)));
    [|reflexivity].
  cbn [negb andb]. destruct (Js.truthy (Js.or_else _ None)); [|reflexivity].
  rewrite IH by (simpl in *; lia). cbn [upstream set_upstream push_sent].
  destruct (github_collect config rest _) as [[o qs] rest'].
  unfold emitted. simpl. by rewrite <- app_assoc.
Qed.

Lemma github_pages_collect config w :
  Github.pages config w =
    let '(o, qs, rest) := github_collect config (upstream w) ([], ∅) in
    (o, emitted w qs rest).
Proof. unfold Github.pages. apply github_loop_collect. lia. Qed.

Lemma github_pages_upstream_only config : upstream_only (Github.pages config).
Proof.
  exists (λ script, github_collect config script ([], ∅)).
  apply github_pages_collect.
Qed.

Lemma contributions_routine_upstream_only (config : Config) :
  upstream_only (contributions_routine config).
Proof. apply bind_ret_upstream_only, github_pages_upstream_only. Qed.

Lemma starred_routine_upstream_only (config : Config) :
  upstream_only (starred_routine config).
Proof. apply bind_ret_upstream_only, fetch_upstream_only. Qed.

Lemma contributions_cache_aside (config : Config) w :
  Github.contributions config w
  = cache_aside (Github.contributions_key config) (contributions_routine config) w.
Proof.
  apply bind_ext. intros cached w1.
  destruct (JsVal.truthy cached); [reflexivity|].
  unfold contributions_routine, bind, ret;
    by destruct (Github.pages _ w1) as [[acc|e|] w2].
Qed.

Lemma starred_cache_aside (config : Config) w :
  Github.starred config w
  = cache_aside Github.starred_key (starred_routine config) w.
Proof.
  apply bind_ext. intros cached w1.
  destruct (JsVal.truthy cached); [reflexivity|].
  unfold starred_routine, starred_request, starred_projects, bind, ret;
    by destruct (fetch _ w1) as [[response|e|] w2].
Qed.

(** A listing that breaks off: every request is the same one, the rejected
    one is the last. *)
Lemma github_collect_breaks config init e rest acc :
  Forall (λ r, goes_on r = true) init →
  github_collect config ((Fulfilled <$> init) ++ Rejected e :: rest) acc
  = (Threw e, replicate (S (length init)) (contributions_request config), rest).
Proof.
  revert acc. induction init as [|r init IH]; intros acc Hinit; [done|].
  apply Forall_cons in Hinit as [Hr Hinit].
  rewrite fmap_cons. cbn [app github_collect length].
  by rewrite Hr, IH.
Qed.

Lemma visit_cases acc repo :
  (Github.visit acc repo = acc
   ∧ (Js.truthy (key_of repo) = false
      ∨ ∃ k, key_of repo = Some k ∧ k ∈ acc.2))
  ∨ (∃ k p, key_of repo = Some k ∧ Js.truthy (Some k) = true ∧ (k ∉ acc.2)
            ∧ Github.name p = Some k
            ∧ Github.visit acc repo = (acc.1 ++ [p], {[ k ]} ∪ acc.2)).
Proof.
  destruct acc as [projects seen]. unfold Github.visit, key_of.
  destruct (toLowerCase <$> _) as [[|c k]|] eqn:Hkey; simpl.
  - left. split; [done|by left].
  - destruct (decide (String c k ∈ seen)) as [Hin|Hout].
    + rewrite bool_decide_eq_true_2 by done. left. split; [done|]. right. eauto.
    + rewrite bool_decide_eq_false_2 by done. right. eexists _, _.
      repeat split; done.
  - left. split; [done|by left].
Qed.

Lemma visit_deduplicated acc repo :
  deduplicated acc → deduplicated (Github.visit acc repo).
Proof.
  intros (Hnd & Hseen & Htruthy).
  destruct (visit_cases acc repo) as [[-> _]|(k & p & Hk & Ht & Hout & Hp & ->)];
    [done|].
  repeat split; simpl.
  - rewrite fmap_app. apply NoDup_app. repeat split; [done| |apply NoDup_singleton].
    intros x Hx. simpl. rewrite Hp, list_elem_of_singleton. intros ->.
    by apply Hout, Hseen.
  - rewrite fmap_app, elem_of_app. simpl. rewrite Hp, list_elem_of_singleton.
    intros [Hin|Heq]; [apply elem_of_union_r; by apply Hseen|].
    simplify_eq. by apply elem_of_union_l, elem_of_singleton.
  - rewrite fmap_app, elem_of_app. simpl. rewrite Hp, list_elem_of_singleton.
    rewrite elem_of_union, elem_of_singleton. intros [->|Hin]; [by right|].
    left. by apply Hseen.
  - intros q. rewrite elem_of_app, list_elem_of_singleton.
    intros [Hq| ->]; [by apply Htruthy|by rewrite Hp].
Qed.

Lemma visit_keeps acc repo (k : option string) :
  k ∈ Github.name <$> acc.1 → k ∈ Github.name <$> (Github.visit acc repo).1.
Proof.
  intros Hk.
  destruct (visit_cases acc repo) as [[-> _]|(k' & p & _ & _ & _ & _ & ->)];
    [done|].
  simpl. rewrite fmap_app, elem_of_app. by left.
Qed.

Lemma visit_records acc repo :
  deduplicated acc → Js.truthy (key_of repo) = true →
  key_of repo ∈ Github.name <$> (Github.visit acc repo).1.
Proof.
  intros (_ & Hseen & _) Ht.
  destruct (visit_cases acc repo)
    as [[-> [Hf|(k & Hk & Hin)]]|(k & p & Hk & _ & _ & Hp & ->)].
  - congruence.
  - rewrite Hk. by apply Hseen.
  - simpl. rewrite fmap_app, elem_of_app. right. simpl.
    rewrite Hp, Hk. apply list_elem_of_singleton. done.
Qed.

Lemma foldl_visit_deduplicated repos acc :
  deduplicated acc → deduplicated (foldl Github.visit acc repos).
Proof.
  revert acc. induction repos as [|repo repos IH]; intros acc Hacc; simpl; [done|].
  by apply IH, visit_deduplicated.
Qed.

Lemma foldl_visit_keeps repos acc (k : option string) :
  k ∈ Github.name <$> acc.1 → k ∈ Github.name <$> (foldl Github.visit acc repos).1.
Proof.
  revert acc. induction repos as [|repo repos IH]; intros acc Hk; simpl; [done|].
  by apply IH, visit_keeps.
Qed.

Lemma foldl_visit_records repos acc repo :
  deduplicated acc → repo ∈ repos → Js.truthy (key_of repo) = true →
  key_of repo ∈ Github.name <$> (foldl Github.visit acc repos).1.
Proof.
  revert acc. induction repos as [|r repos IH]; intros acc Hacc Hin Ht.
  { by apply elem_of_nil in Hin. }
  simpl. apply elem_of_cons in Hin as [->|Hin].
  - by apply foldl_visit_keeps, visit_records.
  - by apply IH; [apply visit_deduplicated|..].
Qed.

Lemma absorb_page_nodes response acc :
  absorb response acc = foldl Github.visit acc (page_nodes response).
Proof. unfold absorb, page_nodes. by destruct (response ≫= Github.nodes) as [[|??]|]. Qed.

(** What a run of the loop that returns has read and built. *)
Lemma github_collect_returned config script acc items qs rest :
  github_collect config script acc = (Returned items, qs, rest) →
  ∃ consumed : list Github.Response,
    script = (Fulfilled <$> consumed) ++ rest
    ∧ items = (foldl Github.visit acc (concat (page_nodes <$> consumed))).1.
Proof.
  revert acc items qs rest.
  induction script as [|[response|e] script IH]; intros acc items qs rest Hrun;
    simpl in Hrun; [done| |done].
  destruct (goes_on response).
  - destruct (github_collect config script _) as [[o qs'] rest'] eqn:Hrec.
    simplify_eq. apply IH in Hrec as (consumed & -> & ->).
    exists (response :: consumed). split; [done|].
    simpl. by rewrite foldl_app, absorb_page_nodes.
  - simplify_eq. exists [response]. split; [done|].
    simpl. by rewrite app_nil_r, absorb_page_nodes.
Qed.

Lemma initial_deduplicated : deduplicated ([], ∅).
Proof.
  repeat split; simpl.
  - constructor.
  - by intros ?%elem_of_nil.
  - by intros ?%elem_of_empty.
  - by intros ? ?%elem_of_nil.
Qed.

(** Enough replies give the result: a listing that ends is read to its end
    and every node of its pages is visited in order. *)
Lemma github_collect_listing config init last rest acc :
  Forall (λ r, goes_on r = true) init → goes_on last = false →
  ∃ qs,
    github_collect config ((Fulfilled <$> init ++ [last]) ++ rest) acc
    = (Returned (foldl Github.visit acc (concat (page_nodes <$> init ++ [last]))).1,
       qs, rest).
Proof.
  revert acc. induction init as [|r init IH]; intros acc Hinit Hlast.
  - simpl. rewrite Hlast. eexists. by rewrite app_nil_r, absorb_page_nodes.
  - apply Forall_cons in Hinit as [Hr Hinit].
    destruct (IH (absorb r acc) Hinit Hlast) as [qs Hqs].
    cbn [app]. rewrite !fmap_cons. cbn [app github_collect concat].
    rewrite Hr, Hqs.
    eexists. by rewrite foldl_app, absorb_page_nodes.
Qed.

Lemma contributions_returns (config : Config) w listing :
  JsVal.truthy (reads (Github.contributions_key config) w) = false →
  serves goes_on w listing →
  fst (Github.contributions config w)
  = Returned (Fresh (Js.sort Github.by_stars
              (foldl Github.visit ([], ∅) (concat (page_nodes <$> listing))).1)).
Proof.
  intros Hmiss (init & last & rest & -> & Hup & Hinit & Hlast).
  rewrite contributions_cache_aside, cache_aside_miss_outcome;
    [|apply contributions_routine_upstream_only|done].
  unfold contributions_routine, bind, ret. rewrite github_pages_collect, Hup.
  by destruct (github_collect_listing config init last rest ([], ∅) Hinit Hlast)
    as [qs ->].
Qed.

Lemma starred_returns (config : Config) w response rest :
  JsVal.truthy (reads Github.starred_key w) = false →
  upstream w = Fulfilled response :: rest →
  fst (Github.starred config w) = Returned (Fresh (starred_projects response)).
Proof.
  intros Hmiss Hup.
  rewrite starred_cache_aside, cache_aside_miss_outcome;
    [|apply starred_routine_upstream_only|done].
  unfold starred_routine, bind, ret, fetch. by rewrite Hup.
Qed.

End GithubFacts.

(** ** The Strava token refresh *)

(** The tests a refresh handler makes, as equations; [taken] then runs
    the branch they select. *)
Ltac tests config en out :=
  destruct (out (GET "strava:refresh_token")) eqn:Hget;
  destruct (JsVal.truthy (found (en !! "strava:refresh_token"))) eqn:Hfound;
  destruct (stravaRefreshToken config) as [|configured_c configured_s] eqn:Hconf.

Ltac taken :=
  repeat (progress
    (repeat match goal with
            | H : _ = true |- _ => rewrite H
            | H : _ = false |- _ => rewrite H
            | H : stravaRefreshToken _ = _ |- _ => rewrite H
            end;
     cbn [negb andb orb Js.truthy JsVal.truthy JsVal.to_string])).

Section StravaFacts.
Context `{JsonParse}.
Implicit Type w : World Strava.TokenResponse.

(** [index.post.ts]: once the exchange has succeeded the handler returns the
    new access token, whether the store takes the new pair or not; a failed
    write leaves a line on the console and the store as it was. *)
Lemma refresh_returns_token (config : Config) w response rest :
  strava_configured config →
  JsVal.truthy (refresh_token_used config w) = true →
  upstream w = Fulfilled response :: rest →
  fst (Strava.refresh config w)
    = Returned (Strava.mkResult (Some (Strava.access_token response)) None)
  ∧ (outage w (MSET (Strava.tokens response)) = true →
     entries (snd (Strava.refresh config w)) = entries w
     ∧ (LError, "Failed to update refreshed tokens in Redis:")
         ∈ console (snd (Strava.refresh config w))).
Proof.
  intros [Hid Hsecret] Htoken Hup.
  destruct w as [en out jn up sn co hd]; simpl in Hup; subst up.
  unfold refresh_token_used, reads in Htoken. cbn [outage entries] in Htoken.
  assert (∀ co' : list (Level * string),
    (LError, "Failed to update refreshed tokens in Redis:")
      ∈ co' ++ [(LError, "Failed to update refreshed tokens in Redis:")]) as Hlog.
  { intros co'. apply elem_of_app. right. by apply list_elem_of_singleton. }
  unfold Strava.refresh. rewrite Hid, Hsecret. cbn [negb orb]. run.
  tests config en out; cbn [negb andb Js.truthy JsVal.truthy] in Htoken;
    rewrite ?Hfound in Htoken; try done; taken;
    destruct (out (MSET (Strava.tokens response))); simpl; by auto.
Qed.

(** The other handler awaits the write without a [catch]: a rejected write
    is the outcome of the request, and no token is returned. *)
Lemma refresh_cloudflare_throws (config : Config) w response rest :
  strava_configured config →
  JsVal.truthy (reads "strava:refresh_token" w) = true →
  upstream w = Fulfilled response :: rest →
  outage w (MSET (Strava.tokens response)) = true →
  fst (Strava.refresh_cloudflare config w) = Threw StoreError.
Proof.
  intros [Hid Hsecret] Htoken Hup Hmset.
  destruct w as [en out jn up sn co hd]; simpl in Hup, Hmset; subst up.
  unfold reads in Htoken. cbn [outage entries] in Htoken.
  unfold Strava.refresh_cloudflare. rewrite Hid, Hsecret. cbn [negb orb]. run.
  destruct (out (GET "strava:refresh_token")); [done|]. by taken.
Qed.

End StravaFacts.

(** ** The data endpoints and the store (claims C4, C6, C7, C10) *)

Section DataEndpoints.
Context `{Caching} `{JsonParse} `{Locale}.
Context `{Json Cargo.CargoPackage} `{Json Github.Project}.
Context `{AsValue Cargo.CargoPackage} `{AsValue Github.Project}.

(** C4: on each data endpoint a hit answers the value the store client
    reads from the string stored under the key.  A miss stores
    [JSON.stringify] of its list under that key, unchanged; where
    [JSON.parse] reads the list back from that string, the next request that
    reads the key answers the list that was written. *)
Theorem cache_hit_round_trips (config : Config) :
  round_trips (Cargo.handler config) (Cargo.cacheKey config) (cargo_routine config)
  ∧ round_trips (Github.contributions config) (Github.contributions_key config)
      (contributions_routine config)
  ∧ round_trips (Github.starred config) Github.starred_key (starred_routine config).
Proof.
  split; [|split].
  - apply handler_round_trips;
      [apply cargo_routine_upstream_only|apply cargo_handler_cache_aside].
  - apply handler_round_trips;
      [apply contributions_routine_upstream_only|apply contributions_cache_aside].
  - apply handler_round_trips;
      [apply starred_routine_upstream_only|apply starred_cache_aside].
Qed.

(** C6: on each data endpoint a rejected read is a miss (the answer is the
    one of the fetch routine) and a rejected write leaves the answer and the
    store alone; no error of the store reaches the caller. *)
Theorem store_errors_swallowed (config : Config) :
  swallows_store_errors (Cargo.handler config) (Cargo.cacheKey config)
    (cargo_routine config)
  ∧ swallows_store_errors (Github.contributions config)
      (Github.contributions_key config) (contributions_routine config)
  ∧ swallows_store_errors (Github.starred config) Github.starred_key
      (starred_routine config).
Proof.
  split; [|split].
  - eapply handler_swallows_store_errors;
      eauto using cargo_routine_upstream_only, cargo_handler_cache_aside.
  - eapply handler_swallows_store_errors;
      eauto using contributions_routine_upstream_only, contributions_cache_aside.
  - eapply handler_swallows_store_errors;
      eauto using starred_routine_upstream_only, starred_cache_aside.
Qed.

(** C7: on each data endpoint a fetch that fails on a miss is the outcome of
    the request.  Whatever the routine, its error is thrown as it is and the
    store sees the lookup and nothing else.  For the loops of the handlers: a
    listing that breaks off after any number of pages makes the request
    fail with the error of the rejected reply, no page read before is
    answered, every request has been sent once and the rejected one is the
    last, no further reply is used, and the store is neither written nor
    asked to be. *)
Theorem fetch_errors_propagate (config : Config) :
  (propagates_fetch_errors (Cargo.handler config) (Cargo.cacheKey config)
     (cargo_routine config)
   ∧ propagates_fetch_errors (Github.contributions config)
       (Github.contributions_key config) (contributions_routine config)
   ∧ propagates_fetch_errors (Github.starred config) Github.starred_key
       (starred_routine config))
  ∧ (∀ (w : World Cargo.CargoResponse) init e rest,
       JsVal.truthy (reads (Cargo.cacheKey config) w) = false →
       Js.truthy (Some (cargoUserId config)) = true →
       breaks_off cargo_more w init e rest →
       fails_with (Cargo.handler config) (Cargo.cacheKey config) w e
         (Cargo.request
            <$> ("https://crates.io/api/v1/crates?page=1&per_page=10&sort=alpha&user_id="
                 +:+ cargoUserId config)
                :: (next_url <$> init))
         rest)
  ∧ (∀ (w : World Github.Response) init e rest,
       JsVal.truthy (reads (Github.contributions_key config) w) = false →
       breaks_off goes_on w init e rest →
       fails_with (Github.contributions config) (Github.contributions_key config)
         w e (replicate (S (length init)) (contributions_request config)) rest)
  ∧ (∀ (w : World Github.Response) e rest,
       JsVal.truthy (reads Github.starred_key w) = false →
       upstream w = Rejected e :: rest →
       fails_with (Github.starred config) Github.starred_key w e
         [starred_request config] rest).
Proof.
  assert (propagates_fetch_errors (Cargo.handler config) (Cargo.cacheKey config)
            (cargo_routine config)) as Hcargo.
  { eapply handler_propagates_fetch_errors;
      eauto using cargo_routine_upstream_only, cargo_handler_cache_aside. }
  assert (propagates_fetch_errors (Github.contributions config)
            (Github.contributions_key config) (contributions_routine config))
    as Hcontributions.
  { eapply handler_propagates_fetch_errors;
      eauto using contributions_routine_upstream_only, contributions_cache_aside. }
  assert (propagates_fetch_errors (Github.starred config) Github.starred_key
            (starred_routine config)) as Hstarred.
  { eapply handler_propagates_fetch_errors;
      eauto using starred_routine_upstream_only, starred_cache_aside. }
  split; [done|]. split; [|split].
  - intros w init e rest Hmiss Hid [Hup Hinit].
    assert (cargo_routine config w
            = (Threw e,
               emitted w
                 (Cargo.request
                    <$> ("https://crates.io/api/v1/crates?page=1&per_page=10&sort=alpha&user_id="
                         +:+ cargoUserId config)
                        :: (next_url <$> init))
                 rest)) as Hrun.
    { unfold cargo_routine, bind. rewrite cargo_pages_collect, Hup.
      assert (Cargo.first_url config
              = Some ("https://crates.io/api/v1/crates?page=1&per_page=10&sort=alpha&user_id="
                      +:+ cargoUserId config)) as ->.
      { unfold Cargo.first_url. by destruct (cargoUserId config). }
      rewrite cargo_collect_breaks; [done| |done].
      by destruct (cargoUserId config). }
    destruct (Hcargo w e Hmiss) as (Hthrown & Hen & Hjn); [by rewrite Hrun|].
    pose proof (cache_aside_miss_upstream _ _ (cargo_routine_upstream_only config)
                  w Hmiss) as [Hsent Hleft].
    rewrite <- !cargo_handler_cache_aside, Hrun in Hsent, Hleft.
    by repeat split.
  - intros w init e rest Hmiss [Hup Hinit].
    assert (contributions_routine config w
            = (Threw e,
               emitted w (replicate (S (length init)) (contributions_request config))
                 rest)) as Hrun.
    { unfold contributions_routine, bind. rewrite github_pages_collect, Hup.
      by rewrite github_collect_breaks. }
    destruct (Hcontributions w e Hmiss) as (Hthrown & Hen & Hjn);
      [by rewrite Hrun|].
    pose proof (cache_aside_miss_upstream _ _
                  (contributions_routine_upstream_only config) w Hmiss)
      as [Hsent Hleft].
    rewrite <- !contributions_cache_aside, Hrun in Hsent, Hleft.
    by repeat split.
  - intros w e rest Hmiss Hup.
    assert (starred_routine config w
            = (Threw e, emitted w [starred_request config] rest)) as Hrun.
    { destruct w as [en out jn up sn co hd]. simpl in Hup. subst up.
      reflexivity. }
    destruct (Hstarred w e Hmiss) as (Hthrown & Hen & Hjn); [by rewrite Hrun|].
    pose proof (cache_aside_miss_upstream _ _ (starred_routine_upstream_only config)
                  w Hmiss) as [Hsent Hleft].
    rewrite <- !starred_cache_aside, Hrun in Hsent, Hleft.
    by repeat split.
Qed.

(** C10: on each data endpoint an empty list fetched on a miss is answered
    and no write is issued, so the store stays as it was and the next request
    misses again; every write an endpoint issues carries a non-empty list. *)
Theorem empty_list_not_written (config : Config) :
  skips_empty_write (Cargo.handler config) (Cargo.cacheKey config)
    (cargo_routine config)
  ∧ skips_empty_write (Github.contributions config)
      (Github.contributions_key config) (contributions_routine config)
  ∧ skips_empty_write (Github.starred config) Github.starred_key
      (starred_routine config).
Proof.
  split; [|split].
  - eapply handler_skips_empty_write;
      eauto using cargo_routine_upstream_only, cargo_handler_cache_aside.
  - eapply handler_skips_empty_write;
      eauto using contributions_routine_upstream_only, contributions_cache_aside.
  - eapply handler_skips_empty_write;
      eauto using starred_routine_upstream_only, starred_cache_aside.
Qed.

End DataEndpoints.

(** ** Order and duplicates of the fetched lists (claims C1, C3) *)

Section Lists.
Context `{Caching} `{JsonParse} `{Locale}.
Context `{Json Cargo.CargoPackage} `{Json Github.Project}.

(** A data endpoint that answers a list has missed and run its routine. *)
Lemma cache_aside_fresh {R A} `{Json A} (key : string) (routine : Async R (list A))
    (w : World R) (items : list A) :
  upstream_only routine →
  fst (cache_aside key routine w) = Returned (Fresh items) →
  JsVal.truthy (reads key w) = false
  ∧ fst (routine w) = Returned items
  ∧ upstream (snd (cache_aside key routine w)) = upstream (snd (routine w)).
Proof.
  intros Hroutine Hrun.
  assert (JsVal.truthy (reads key w) = false) as Hmiss.
  { destruct (JsVal.truthy (reads key w)) eqn:Hread; [|done].
    by rewrite cache_aside_hit in Hrun. }
  split; [done|]. rewrite cache_aside_miss in * by done.
  destruct (routine w) as [[items'|e|] w']; simplify_eq/=.
  split; [done|]. apply (upstream_missed key items w').
Qed.

Lemma cargo_fresh (config : Config) (w : World Cargo.CargoResponse) items :
  fst (Cargo.handler config w) = Returned (Fresh items) →
  ∃ consumed : list Cargo.CargoResponse,
    upstream w = (Fulfilled <$> consumed) ++ upstream (snd (Cargo.handler config w))
    ∧ fst (Cargo.pages (Cargo.first_url config) [] w)
      = Returned (concat (page_crates <$> consumed))
    ∧ items = Js.sort Cargo.by_downloads (concat (page_crates <$> consumed)).
Proof.
  rewrite cargo_handler_cache_aside. intros Hrun.
  apply cache_aside_fresh in Hrun as (_ & Hrun & ->);
    [|apply cargo_routine_upstream_only].
  unfold cargo_routine, bind, ret in *. rewrite cargo_pages_collect in *.
  destruct (cargo_collect _ _ _) as [[[acc|e|] qs] rest] eqn:Hcollect;
    simplify_eq/=.
  apply cargo_collect_returned in Hcollect as (consumed & Hup & ->).
  by exists consumed.
Qed.

Lemma contributions_fresh (config : Config) (w : World Github.Response) items :
  fst (Github.contributions config w) = Returned (Fresh items) →
  ∃ consumed : list Github.Response,
    upstream w
      = (Fulfilled <$> consumed) ++ upstream (snd (Github.contributions config w))
    ∧ fst (Github.pages config w)
      = Returned (foldl Github.visit ([], ∅) (concat (page_nodes <$> consumed))).1
    ∧ items = Js.sort Github.by_stars
                (foldl Github.visit ([], ∅) (concat (page_nodes <$> consumed))).1.
Proof.
  rewrite contributions_cache_aside. intros Hrun.
  apply cache_aside_fresh in Hrun as (_ & Hrun & ->);
    [|apply contributions_routine_upstream_only].
  unfold contributions_routine, bind, ret in *. rewrite github_pages_collect in *.
  destruct (github_collect _ _ _) as [[[acc|e|] qs] rest] eqn:Hcollect;
    simplify_eq/=.
  apply github_collect_returned in Hcollect as (consumed & Hup & ->).
  by exists consumed.
Qed.

Lemma starred_fresh (config : Config) (w : World Github.Response) items :
  fst (Github.starred config w) = Returned (Fresh items) →
  ∃ response rest,
    upstream w = Fulfilled response :: rest
    ∧ items = Github.shape <$> page_nodes response.
Proof.
  rewrite starred_cache_aside. intros Hrun.
  apply cache_aside_fresh in Hrun as (_ & Hrun & _);
    [|apply starred_routine_upstream_only].
  unfold starred_routine, bind, ret, fetch in Hrun.
  destruct (upstream w) as [|[response|e] rest]; simplify_eq/=.
  by exists response, rest.
Qed.

(** *** The comparators *)

Lemma by_downloads_before (a b : Cargo.CargoPackage) :
  before Cargo.by_downloads a b ↔ Cargo.downloads b <= Cargo.downloads a.
Proof. unfold before, Cargo.by_downloads. lia. Qed.

Lemma by_stars_before (a b : Github.Project) :
  before Github.by_stars a b ↔ stars_then_name a b.
Proof.
  unfold before, Github.by_stars, stars_then_name.
  destruct (Z.eqb_spec (Github.stargazerCount a) (Github.stargazerCount b)); lia.
Qed.

Lemma StronglySorted_iff {A} (R1 R2 : relation A) (l : list A) :
  (∀ a b, R1 a b ↔ R2 a b) → StronglySorted R1 l → StronglySorted R2 l.
Proof.
  intros HR. induction 1 as [|a l Hl IH Hall]; constructor; [done|].
  eapply Forall_impl; [done|]. intros b. apply HR.
Qed.

Lemma NoDup_fmap_eq {A B} (f : A → B) (l : list A) a b :
  NoDup (f <$> l) → a ∈ l → b ∈ l → f a = f b → a = b.
Proof.
  induction l as [|x l IH]; simpl; [by intros _ ?%elem_of_nil|].
  rewrite NoDup_cons. intros [Hx Hl].
  rewrite !elem_of_cons. intros [->|Ha] [->|Hb] Hf; try done.
  - destruct Hx. rewrite Hf. by apply list_elem_of_fmap_2.
  - destruct Hx. rewrite <- Hf. by apply list_elem_of_fmap_2.
  - by apply IH.
Qed.

Lemma elem_of_concat_pages {A B} (f : A → list B) (pages : list A) (page : A) (x : B) :
  page ∈ pages → x ∈ f page → x ∈ concat (f <$> pages).
Proof.
  intros Hpage Hx. apply list_elem_of_In, in_concat. exists (f page).
  split; apply list_elem_of_In; [by apply list_elem_of_fmap_2|done].
Qed.

(** C3, as the code has it: the contributions handler reads a listing that
    ends to its end and keeps one record for each lower-cased name, whatever
    pages the name came in, every node with a name being represented; the
    crates.io handler reads its listing to the end and keeps every crate of
    every page, so a crate that two pages list is in the answer twice. *)
Theorem pages_merged :
  (∀ (config : Config) (w : World Github.Response) listing,
     JsVal.truthy (reads (Github.contributions_key config) w) = false →
     serves goes_on w listing →
     ∃ items, fst (Github.contributions config w) = Returned (Fresh items))
  ∧ (∀ (config : Config) (w : World Github.Response) items,
       fst (Github.contributions config w) = Returned (Fresh items) →
       NoDup (Github.name <$> items)
       ∧ ∃ consumed : list Github.Response,
           upstream w = (Fulfilled <$> consumed)
                          ++ upstream (snd (Github.contributions config w))
           ∧ ∀ response repo,
               response ∈ consumed → repo ∈ page_nodes response →
               Js.truthy (key_of repo) = true →
               key_of repo ∈ Github.name <$> items)
  ∧ (∀ (config : Config) (w : World Cargo.CargoResponse) listing,
       JsVal.truthy (reads (Cargo.cacheKey config) w) = false →
       Js.truthy (Cargo.first_url config) = true →
       serves cargo_more w listing →
       ∃ items, fst (Cargo.handler config w) = Returned (Fresh items))
  ∧ (∀ (config : Config) (w : World Cargo.CargoResponse) items,
       fst (Cargo.handler config w) = Returned (Fresh items) →
       ∃ consumed : list Cargo.CargoResponse,
         upstream w = (Fulfilled <$> consumed)
                        ++ upstream (snd (Cargo.handler config w))
         ∧ items ≡ₚ concat (page_crates <$> consumed)).
Proof.
  split; [|split; [|split]].
  - intros config w listing Hmiss Hserves. eexists.
    by apply contributions_returns.
  - intros config w items (consumed & Hup & _ & ->)%contributions_fresh.
    pose proof (foldl_visit_deduplicated (concat (page_nodes <$> consumed))
                  ([], ∅) initial_deduplicated) as (Hnd & _ & _).
    split; [by rewrite sort_Permutation|].
    exists consumed. split; [done|]. intros response repo Hin Hrepo Hkey.
    rewrite sort_Permutation.
    apply foldl_visit_records; [apply initial_deduplicated| |done].
    by eapply elem_of_concat_pages.
  - intros config w listing Hmiss Hurl Hserves. eexists.
    by apply cargo_returns.
  - intros config w items (consumed & Hup & _ & ->)%cargo_fresh.
    exists consumed. split; [done|]. apply sort_Permutation.
Qed.

Section Laws.
Context `{!LocaleLaws}.

Lemma by_stars_total (a b : Github.Project) :
  before Github.by_stars a b ∨ before Github.by_stars b a.
Proof.
  rewrite !by_stars_before. unfold stars_then_name.
  destruct (localeCompare_total (toLowerCase (Github.name_of a))
                                (toLowerCase (Github.name_of b))); lia.
Qed.

Lemma by_stars_trans (a b c : Github.Project) :
  before Github.by_stars a b → before Github.by_stars b c →
  before Github.by_stars a c.
Proof.
  rewrite !by_stars_before. unfold stars_then_name.
  intros [?|[? Hab]] [?|[? Hbc]]; try lia.
  right. split; [lia|]. by eapply localeCompare_trans.
Qed.

Lemma visit_lowercased acc repo :
  lowercased acc.1 → lowercased (Github.visit acc repo).1.
Proof.
  intros Hacc.
  destruct (visit_cases acc repo) as [[-> _]|(k & p & Hk & _ & _ & Hp & ->)];
    [done|].
  intros q. simpl. rewrite elem_of_app, list_elem_of_singleton.
  intros [Hq| ->]; [by apply Hacc|].
  unfold Github.name_of. rewrite Hp. simpl.
  unfold key_of in Hk. destruct (Js.or_else _ _) as [x|]; simplify_eq/=.
  apply toLowerCase_idemp.
Qed.

Lemma foldl_visit_lowercased repos acc :
  lowercased acc.1 → lowercased (foldl Github.visit acc repos).1.
Proof.
  revert acc. induction repos as [|repo repos IH]; intros acc Hacc; simpl; [done|].
  by apply IH, visit_lowercased.
Qed.

(** Among records the loop has built, the comparator tells any two apart. *)
Lemma by_stars_antisym repos (a b : Github.Project) :
  a ∈ (foldl Github.visit ([], ∅) repos).1 →
  b ∈ (foldl Github.visit ([], ∅) repos).1 →
  before Github.by_stars a b → before Github.by_stars b a → a = b.
Proof.
  intros Ha Hb. rewrite !by_stars_before. unfold stars_then_name.
  intros [?|[? Hab]] [?|[? Hba]]; try lia.
  pose proof (foldl_visit_deduplicated repos ([], ∅) initial_deduplicated)
    as (Hnd & _ & Htruthy).
  assert (lowercased (foldl Github.visit ([], ∅) repos).1) as Hlow.
  { apply foldl_visit_lowercased. by intros ? ?%elem_of_nil. }
  pose proof (localeCompare_antisym _ _ Hab Hba) as Heq.
  rewrite (Hlow a Ha), (Hlow b Hb) in Heq.
  apply (NoDup_fmap_eq Github.name _ a b Hnd Ha Hb).
  specialize (Htruthy a Ha) as Hta. specialize (Htruthy b Hb) as Htb.
  unfold Github.name_of in Heq.
  destruct (Github.name a) as [[|??]|], (Github.name b) as [[|??]|];
    simplify_eq/=; done.
Qed.

(** C1, as the code has it: the contributions handler reads a listing that
    ends and answers its records by stars, most first, and by lower-cased
    name among equal stars, whatever order they were fetched in; the
    crates.io handler reads its listing and answers its crates by downloads,
    most first, and leaves crates with equal downloads in the order they were
    fetched in; the starred handler answers the nodes of the one reply in the
    order of the reply. *)
Theorem fetched_lists_order :
  (∀ (config : Config) (w : World Github.Response) listing,
     JsVal.truthy (reads (Github.contributions_key config) w) = false →
     serves goes_on w listing →
     ∃ items, fst (Github.contributions config w) = Returned (Fresh items))
  ∧ (∀ (config : Config) (w : World Github.Response) items,
       fst (Github.contributions config w) = Returned (Fresh items) →
       StronglySorted stars_then_name items
       ∧ ∃ projects,
           fst (Github.pages config w) = Returned projects
           ∧ ∀ arrival, arrival ≡ₚ projects →
                        Js.sort Github.by_stars arrival = items)
  ∧ (∀ (config : Config) (w : World Cargo.CargoResponse) listing,
       JsVal.truthy (reads (Cargo.cacheKey config) w) = false →
       Js.truthy (Cargo.first_url config) = true →
       serves cargo_more w listing →
       ∃ items, fst (Cargo.handler config w) = Returned (Fresh items))
  ∧ (∀ (config : Config) (w : World Cargo.CargoResponse) items,
       fst (Cargo.handler config w) = Returned (Fresh items) →
       StronglySorted (λ a b, Cargo.downloads b <= Cargo.downloads a) items
       ∧ ∃ packages,
           fst (Cargo.pages (Cargo.first_url config) [] w) = Returned packages
           ∧ items ≡ₚ packages
           ∧ ∀ d : Z,
               filter (λ p, Cargo.downloads p = d) items
               = filter (λ p, Cargo.downloads p = d) packages)
  ∧ (∀ (config : Config) (w : World Github.Response) response rest,
       JsVal.truthy (reads Github.starred_key w) = false →
       upstream w = Fulfilled response :: rest →
       fst (Github.starred config w)
       = Returned (Fresh (Github.shape <$> page_nodes response))).
Proof.
  split; [|split; [|split; [|split]]].
  - intros config w listing Hmiss Hserves. eexists.
    by apply contributions_returns.
  - intros config w items (consumed & _ & Hpages & ->)%contributions_fresh.
    split.
    + eapply StronglySorted_iff; [apply by_stars_before|].
      apply sort_StronglySorted; [apply by_stars_total|apply by_stars_trans].
    + eexists. split; [done|]. intros arrival Harrival. symmetry.
      apply sort_determined;
        [apply by_stars_total|apply by_stars_trans| |done].
      intros a b. apply by_stars_antisym.
  - intros config w listing Hmiss Hurl Hserves. eexists.
    by apply cargo_returns.
  - intros config w items (consumed & _ & Hpages & ->)%cargo_fresh.
    split.
    + eapply StronglySorted_iff; [apply by_downloads_before|].
      apply sort_StronglySorted; unfold before, Cargo.by_downloads; intros; lia.
    + eexists. split; [done|]. split; [apply sort_Permutation|].
      intros d. apply sort_stable. unfold Cargo.by_downloads. intros; lia.
  - intros config w response rest. apply starred_returns.
Qed.

End Laws.
End Lists.

(** ** The pagination of the contributions handler (claim C2) *)

Section Pagination.
Context `{Caching} `{JsonParse} `{Locale} `{Json Github.Project}.

(** Every request of the loop is the one request built from the
    configuration, whatever the replies: the cursor of the reply before it is
    not in it. *)
Lemma github_collect_requests config script acc :
  ∃ n : nat, (github_collect config script acc).1.2
             = replicate n (contributions_request config).
Proof.
  revert acc. induction script as [|[response|e] script IH]; intros acc; simpl.
  - by exists 1%nat.
  - destruct (goes_on response); [|by exists 1%nat].
    destruct (IH (absorb response acc)) as [n Hn].
    destruct (github_collect config script _) as [[o qs] rest]. simpl in *.
    exists (S n). by rewrite Hn.
  - by exists 1%nat.
Qed.

Lemma contributions_requests_constant config (w : World Github.Response) :
  ∃ n : nat, sent (snd (Github.pages config w))
             = sent w ++ replicate n (contributions_request config).
Proof.
  rewrite github_pages_collect.
  destruct (github_collect_requests config (upstream w) ([], ∅)) as [n Hn].
  destruct (github_collect config (upstream w) _) as [[o qs] rest]. simpl in *.
  exists n. by rewrite Hn.
Qed.

Lemma github_collect_stuck config reply (n : nat) acc :
  goes_on reply = true →
  github_collect config (replicate n (Fulfilled reply)) acc
  = (Pending, replicate (S n) (contributions_request config), []).
Proof.
  intros Hon. revert acc. induction n as [|n IH]; intros acc; simpl; [done|].
  by rewrite Hon, IH.
Qed.

(** C2, where the code departs from it: an account with more than a hundred
    repositories gets a first page with [hasNextPage] and an [endCursor].
    The handler asks again with the same query, which names no cursor, so an
    upstream that answers a query the same way every time answers the first
    page again: after any number [n] of replies the handler has sent [n + 1]
    equal requests and has not returned. *)
Theorem contributions_loop_never_advances (config : Config) (n : nat) :
  let first_page :=
    github_page [repo "rust-lang/cargo" 50] true (Some "Y3Vyc29yOjEwMA") in
  let run := Github.contributions config (quiet (replicate n first_page)) in
  fst run = Pending
  ∧ sent (snd run) = replicate (S n) (contributions_request config).
Proof.
  intros first_page run. unfold run.
  rewrite contributions_cache_aside, cache_aside_miss;
    [|apply contributions_routine_upstream_only
     |unfold reads; simpl; by rewrite lookup_empty].
  unfold contributions_routine, bind. rewrite github_pages_collect.
  cbn [upstream quiet]. unfold first_page, github_page.
  by rewrite github_collect_stuck.
Qed.

End Pagination.

(** ** The Strava token refresh (claim C8) *)

(** C8, where the code departs from it: the exchange succeeds and the store
    rejects the write of the new pair.  The handler of [index.post.ts]
    returns the new access token; the other refresh handler of the
    repository awaits the write without a [catch] and throws the error of the
    store. *)
Theorem refresh_persist_failure :
  fst (@Strava.refresh sample_json sample_config
         (read_only stored_refresh_token [Fulfilled new_tokens]))
    = Returned (Strava.mkResult (Some "new-access-token") None)
  ∧ fst (@Strava.refresh_cloudflare sample_json sample_config
           (read_only stored_refresh_token [Fulfilled new_tokens]))
    = Threw StoreError.
Proof. split; reflexivity. Qed.

(** ** The sample host *)

Lemma ascii_lower_idemp (c : ascii) : ascii_lower (ascii_lower c) = ascii_lower c.
Proof. destruct c as [[] [] [] [] [] [] [] []]; reflexivity. Qed.

Lemma lower_idemp (s : string) : lower (lower s) = lower s.
Proof. induction s as [|c s IH]; simpl; [done|]. by rewrite ascii_lower_idemp, IH. Qed.

Lemma byte_order_le (a b : string) : byte_order a b <= 0 ↔ String.le a b.
Proof.
  unfold byte_order, String.le. destruct (String.eqb_spec a b) as [->|Hne].
  - split; [|lia]. intros _. by destruct (String.leb_total b b) as [->| ->].
  - destruct (String.leb a b); split; try done; lia.
Qed.

Lemma sample_locale_laws : @LocaleLaws sample_locale.
Proof.
  split; simpl.
  - apply lower_idemp.
  - intros a b. rewrite !byte_order_le. apply total, _.
  - intros a b c. rewrite !byte_order_le. apply transitivity.
  - intros a b. rewrite !byte_order_le. apply (anti_symm String.le).
Qed.

(** ** The claims on sample requests *)

Section Samples.
#[local] Existing Instances sample_caching sample_locale sample_json
  package_json project_json package_value project_value.

(** C1 as stated fails on the crates.io handler: the same two crates with
    equal downloads are answered in the order the upstream listed them,
    either way round, so the names do not settle the order. *)
Lemma cargo_ties_keep_arrival_order :
  Cargo.downloads serde = Cargo.downloads anyhow
  ∧ fst (Cargo.handler sample_config (quiet [cargo_page [serde; anyhow] None]))
    = Returned (Fresh [serde; anyhow])
  ∧ fst (Cargo.handler sample_config (quiet [cargo_page [anyhow; serde] None]))
    = Returned (Fresh [anyhow; serde]).
Proof. repeat split; reflexivity. Qed.

(** The contributions handler on three repositories, two of them with fifty
    stars, fetched in the order b, c, a. *)
Lemma fetched_lists_order_witness :
  fst (Github.contributions sample_config
         (quiet [github_page [repo "b/b" 50; repo "c/c" 10; repo "A/a" 50]
                   false None]))
    = Returned (Fresh [ contributed "A/a" "a/a" 50; contributed "b/b" "b/b" 50;
                        contributed "c/c" "c/c" 10 ])
  ∧ StronglySorted stars_then_name
      [ contributed "A/a" "a/a" 50; contributed "b/b" "b/b" 50;
        contributed "c/c" "c/c" 10 ].
Proof.
  split; [reflexivity|].
  pose proof (@fetched_lists_order sample_caching sample_json sample_locale
                package_json project_json sample_locale_laws) as (_ & Hgithub & _).
  exact (proj1 (Hgithub sample_config
                  (quiet [github_page [repo "b/b" 50; repo "c/c" 10; repo "A/a" 50]
                            false None])
                  _ eq_refl)).
Defined.

(** C3 as stated fails on the crates.io handler: a crate listed on two pages
    is in the answer twice.  The first page names the second by its URL. *)
Lemma cargo_keeps_duplicates :
  fst (Cargo.handler sample_config
         (quiet [cargo_page [serde] (Some page_two); cargo_page [serde; tokio] None]))
    = Returned (Fresh [tokio; serde; serde])
  ∧ ¬ NoDup (Cargo.name <$> [tokio; serde; serde]).
Proof.
  split; [reflexivity|]. intros Hnd.
  apply NoDup_cons in Hnd as [_ Hnd]. apply NoDup_cons in Hnd as [Hin _].
  apply Hin. by left.
Qed.

(** The contributions handler on two pages that both list one repository,
    spelled with different case. *)
Lemma pages_merged_witness :
  fst (Github.contributions sample_config
         (quiet [ github_page [repo "Rust-Lang/Cargo" 50] true (Some "Y3Vyc29yOjE");
                  github_page [repo "rust-lang/cargo" 50; repo "c/c" 10] false None ]))
    = Returned (Fresh [ contributed "Rust-Lang/Cargo" "rust-lang/cargo" 50;
                        contributed "c/c" "c/c" 10 ])
  ∧ NoDup (Github.name <$> [ contributed "Rust-Lang/Cargo" "rust-lang/cargo" 50;
                             contributed "c/c" "c/c" 10 ]).
Proof.
  split; [reflexivity|].
  pose proof (@pages_merged sample_caching sample_json sample_locale package_json project_json)
    as (_ & Hgithub & _).
  exact (proj1 (Hgithub sample_config
                  (quiet [ github_page [repo "Rust-Lang/Cargo" 50] true
                             (Some "Y3Vyc29yOjE");
                           github_page [repo "rust-lang/cargo" 50; repo "c/c" 10]
                             false None ])
                  _ eq_refl)).
Defined.

(** A miss stores the text of [[serde]]; the next request finds it and
    answers the list. *)
Lemma cache_hit_round_trips_witness :
  fst (Cargo.handler sample_config (quiet [cargo_page [serde] None]))
    = Returned (Fresh [serde])
  ∧ value <$> entries (snd (Cargo.handler sample_config
                              (quiet [cargo_page [serde] None])))
                !! "cargo:packages:42"
    = Some (stringify [serde])
  ∧ fst (Cargo.handler sample_config
           (stocked (entries (snd (Cargo.handler sample_config
                                     (quiet [cargo_page [serde] None]))))
                    []))
    = Returned (Cached (as_value [serde])).
Proof.
  split; [reflexivity|].
  pose proof (@cache_hit_round_trips sample_caching sample_json sample_locale
                package_json project_json package_value project_value
                sample_config) as [[_ Hcargo] _].
  refine (Hcargo (quiet [cargo_page [serde] None]) [serde]
            (stocked (entries (snd (Cargo.handler sample_config
                                      (quiet [cargo_page [serde] None]))))
                     [])
            eq_refl eq_refl _ eq_refl eq_refl eq_refl eq_refl).
  discriminate.
Defined.

(** The store rejects every command: the crates are fetched and answered. *)
Lemma store_errors_swallowed_witness :
  fst (Cargo.handler sample_config (down [cargo_page [serde; tokio] None]))
    = Returned (Fresh [tokio; serde]).
Proof.
  pose proof (@store_errors_swallowed sample_caching sample_json sample_locale
                package_json project_json sample_config) as [[Hcargo _] _].
  exact (Hcargo (down [cargo_page [serde; tokio] None]) eq_refl).
Defined.

(** The second page of crates fails: the request fails with the error of
    that page, the crate of the first page is not answered, two requests
    have gone out and the store has seen the lookup only. *)
Lemma fetch_errors_propagate_witness :
  fst (Cargo.handler sample_config
         (quiet [Fulfilled first_crates; Rejected upstream_down;
                 cargo_page [tokio] None]))
    = Threw upstream_down
  ∧ entries (snd (Cargo.handler sample_config
                    (quiet [Fulfilled first_crates; Rejected upstream_down;
                            cargo_page [tokio] None])))
    = ∅
  ∧ journal (snd (Cargo.handler sample_config
                    (quiet [Fulfilled first_crates; Rejected upstream_down;
                            cargo_page [tokio] None])))
    = [GET "cargo:packages:42"]
  ∧ sent (snd (Cargo.handler sample_config
                 (quiet [Fulfilled first_crates; Rejected upstream_down;
                         cargo_page [tokio] None])))
    = [ Cargo.request
          "https://crates.io/api/v1/crates?page=1&per_page=10&sort=alpha&user_id=42";
        Cargo.request page_two ]
  ∧ upstream (snd (Cargo.handler sample_config
                     (quiet [Fulfilled first_crates; Rejected upstream_down;
                             cargo_page [tokio] None])))
    = [cargo_page [tokio] None].
Proof.
  pose proof (@fetch_errors_propagate sample_caching sample_json sample_locale
                package_json project_json sample_config) as (_ & Hcargo & _).
  refine (Hcargo (quiet [Fulfilled first_crates; Rejected upstream_down;
                         cargo_page [tokio] None])
            [first_crates] upstream_down [cargo_page [tokio] None]
            eq_refl eq_refl (conj eq_refl _)).
  repeat constructor.
Defined.

(** No crate at all: the empty list is answered, the store has seen the
    lookup only. *)
Lemma empty_list_not_written_witness :
  fst (Cargo.handler sample_config (quiet [cargo_page [] None]))
    = Returned (Fresh [])
  ∧ entries (snd (Cargo.handler sample_config (quiet [cargo_page [] None]))) = ∅
  ∧ journal (snd (Cargo.handler sample_config (quiet [cargo_page [] None])))
    = [GET "cargo:packages:42"].
Proof.
  pose proof (@empty_list_not_written sample_caching sample_json sample_locale
                package_json project_json sample_config) as [[Hcargo _] _].
  exact (Hcargo (quiet [cargo_page [] None]) eq_refl eq_refl).
Defined.

End Samples.

(** * Further properties of the handlers *)

(** ** The data endpoints and the world *)

Section MoreCacheAsideFacts.
Context {R A : Type} `{Caching} `{JsonParse} `{Json A}.
Context (key : string) (routine : Async R (list A)).
Hypothesis routine_upstream_only : upstream_only routine.
Variable handler : Async R (Body A).
Hypothesis handler_cache_aside : ∀ w, handler w = cache_aside key routine w.
Implicit Type w : World R.

Lemma handler_hit_is_quiet : hit_is_quiet handler key.
Proof.
  intros w entry Hout Hentry Htruthy.
  rewrite handler_cache_aside, cache_aside_hit;
    [done|by rewrite (reads_entry key w entry)].
Qed.

Lemma headers_missed (items : list A) w :
  headers (missed key items w) !! "x-redis-cache" = Some "miss".
Proof. unfold missed. simpl. apply lookup_insert_eq. Qed.

Lemma handler_header_tells_origin : header_tells_origin handler.
Proof.
  intros w body. rewrite handler_cache_aside.
  destruct (JsVal.truthy (reads key w)) eqn:Hmiss.
  - rewrite cache_aside_hit by done. simpl. intros [= <-].
    split; [apply lookup_insert_eq|]. intros _ _.
    rewrite lookup_insert_ne by done. apply lookup_insert_eq.
  - rewrite cache_aside_miss by done.
    destruct (routine w) as [[items|e|] w']; simpl; try done.
    intros [= <-]. split; [apply headers_missed|done].
Qed.

Lemma handler_writes_at_most_once : writes_at_most_once handler key.
Proof.
  intros w. rewrite handler_cache_aside.
  destruct (JsVal.truthy (reads key w)) eqn:Hmiss.
  - left. by rewrite cache_aside_hit.
  - pose proof (cache_aside_miss_store key routine routine_upstream_only w Hmiss)
      as Hstore.
    pose proof (cache_aside_miss_outcome key routine routine_upstream_only w Hmiss)
      as Hout.
    destruct (fst (routine w)) as [[|p items]|e|]; try (left; apply Hstore).
    right. exists (p :: items). split; [done|]. split; [done|apply Hstore].
Qed.

Lemma handler_miss_overwrites : miss_overwrites handler key routine.
Proof.
  intros w items Hmiss Hrun Hitems Hwrite. rewrite handler_cache_aside.
  pose proof (cache_aside_miss_store key routine routine_upstream_only w Hmiss)
    as Hstore.
  rewrite Hrun in Hstore. destruct items as [|p items]; [done|].
  destruct Hstore as [_ ->]. rewrite Hwrite. split.
  - apply lookup_insert_eq.
  - intros other Hother. by rewrite lookup_insert_ne.
Qed.

Lemma handler_empty_string_misses : empty_string_misses handler key routine.
Proof.
  assert (∀ w entry,
            entries w !! key = Some entry →
            JsVal.truthy (deserialize (value entry)) = false →
            fst (handler w) = fresh (fst (routine w))) as Hfalsy.
  { intros w entry Hentry Hvalue. rewrite handler_cache_aside.
    apply cache_aside_miss_outcome; [done|].
    unfold reads. rewrite Hentry. by destruct (outage w (GET key)). }
  split; [done|].
  intros Hparse w t Hentry. apply (Hfalsy w _ Hentry).
  unfold deserialize. cbn [value]. by rewrite Hparse.
Qed.

End MoreCacheAsideFacts.

Section MoreDataEndpoints.
Context `{Caching} `{JsonParse} `{Locale}.
Context `{Json Cargo.CargoPackage} `{Json Github.Project}.

(** On each data endpoint a hit is answered from the store alone: one
    lookup, no request to the upstream, no reply used, no write, nothing on
    the console. *)
Theorem cache_hit_is_quiet (config : Config) :
  hit_is_quiet (Cargo.handler config) (Cargo.cacheKey config)
  ∧ hit_is_quiet (Github.contributions config) (Github.contributions_key config)
  ∧ hit_is_quiet (Github.starred config) Github.starred_key.
Proof.
  split; [|split].
  - eapply handler_hit_is_quiet;
      eauto using cargo_routine_upstream_only, cargo_handler_cache_aside.
  - eapply handler_hit_is_quiet;
      eauto using contributions_routine_upstream_only, contributions_cache_aside.
  - eapply handler_hit_is_quiet;
      eauto using starred_routine_upstream_only, starred_cache_aside.
Qed.

(** On each data endpoint the [x-redis-cache] header of an answer is [hit]
    exactly when the body is what the store held and [miss] when it is a
    fetched list; a hit also sets the JSON content type. *)
Theorem cache_header_tells_origin (config : Config) :
  header_tells_origin (Cargo.handler config)
  ∧ header_tells_origin (Github.contributions config)
  ∧ header_tells_origin (Github.starred config).
Proof.
  split; [|split].
  - eapply handler_header_tells_origin;
      eauto using cargo_routine_upstream_only, cargo_handler_cache_aside.
  - eapply handler_header_tells_origin;
      eauto using contributions_routine_upstream_only, contributions_cache_aside.
  - eapply handler_header_tells_origin;
      eauto using starred_routine_upstream_only, starred_cache_aside.
Qed.

(** On each data endpoint a request sends the store one [GET] and at most
    one [SETEX]; the [SETEX] is for the key of the endpoint, lasts
    [REDIS_CACHE_DURATION] and carries the list the request answers. *)
Theorem store_written_at_most_once (config : Config) :
  writes_at_most_once (Cargo.handler config) (Cargo.cacheKey config)
  ∧ writes_at_most_once (Github.contributions config)
      (Github.contributions_key config)
  ∧ writes_at_most_once (Github.starred config) Github.starred_key.
Proof.
  split; [|split].
  - eapply handler_writes_at_most_once;
      eauto using cargo_routine_upstream_only, cargo_handler_cache_aside.
  - eapply handler_writes_at_most_once;
      eauto using contributions_routine_upstream_only, contributions_cache_aside.
  - eapply handler_writes_at_most_once;
      eauto using starred_routine_upstream_only, starred_cache_aside.
Qed.

(** On each data endpoint the write of a miss, when the store takes it,
    replaces whatever was under the key by the new list with its duration,
    and changes no other key. *)
Theorem miss_overwrites_entry (config : Config) :
  miss_overwrites (Cargo.handler config) (Cargo.cacheKey config)
    (cargo_routine config)
  ∧ miss_overwrites (Github.contributions config)
      (Github.contributions_key config) (contributions_routine config)
  ∧ miss_overwrites (Github.starred config) Github.starred_key
      (starred_routine config).
Proof.
  split; [|split].
  - eapply handler_miss_overwrites;
      eauto using cargo_routine_upstream_only, cargo_handler_cache_aside.
  - eapply handler_miss_overwrites;
      eauto using contributions_routine_upstream_only, contributions_cache_aside.
  - eapply handler_miss_overwrites;
      eauto using starred_routine_upstream_only, starred_cache_aside.
Qed.

(** On each data endpoint a stored string that the client hands back as a
    falsy value is no hit for [if (cached)]: the request is a miss and
    answers what the fetch gives.  The empty string is one (its parse
    throws), the texts of [0], [false] and [null] are others. *)
Theorem empty_cached_string_is_a_miss (config : Config) :
  empty_string_misses (Cargo.handler config) (Cargo.cacheKey config)
    (cargo_routine config)
  ∧ empty_string_misses (Github.contributions config)
      (Github.contributions_key config) (contributions_routine config)
  ∧ empty_string_misses (Github.starred config) Github.starred_key
      (starred_routine config).
Proof.
  split; [|split].
  - eapply handler_empty_string_misses;
      eauto using cargo_routine_upstream_only, cargo_handler_cache_aside.
  - eapply handler_empty_string_misses;
      eauto using contributions_routine_upstream_only, contributions_cache_aside.
  - eapply handler_empty_string_misses;
      eauto using starred_routine_upstream_only, starred_cache_aside.
Qed.

End MoreDataEndpoints.

(** ** The invalidation endpoint, target by target *)

Section MoreInvalidateFacts.
Context {R : Type}.
Implicit Type w : World R.

Lemma invalidate_run (config : Config) (target : option string) ks w :
  Invalidate.keysToDelete config target = Some (Js.Arr ks) →
  Invalidate.handler config target w =
    (Returned (Invalidate.Success {|
       Invalidate.success := true;
       Invalidate.message :=
         "Cache invalidation completed for: " +:+ default "undefined" target;
       Invalidate.deleted :=
         length (filter (λ r, is_fulfilled r = true) (del_result w <$> ks));
       Invalidate.failed :=
         length (filter (λ r, is_rejected r = true) (del_result w <$> ks));
       Invalidate.keys := ks |}),
     after_del ks w).
Proof.
  intros Hkeys. unfold Invalidate.handler. rewrite Hkeys. unfold bind.
  by rewrite allSettled_del.
Qed.

Lemma del_results_rejected w (ks : list string) :
  length (filter (λ r, is_rejected r = true) (del_result w <$> ks))
  = length (filter (λ k, outage w (DEL k) = true) ks).
Proof.
  induction ks as [|k ks IH]; [done|].
  cbn [fmap list_fmap]. destruct (outage w (DEL k)) eqn:Hk.
  - rewrite !filter_cons_True; [simpl; by rewrite IH|done|].
    unfold del_result. by rewrite Hk.
  - rewrite !filter_cons_False; [done|congruence|].
    unfold del_result. by rewrite Hk.
Qed.

Lemma after_del_lookup (ks : list string) w (k : string) :
  entries (after_del ks w) !! k
  = if bool_decide (k ∈ ks) && negb (outage w (DEL k)) then None
    else entries w !! k.
Proof.
  unfold after_del. cbn [entries]. generalize (entries w) as m.
  induction ks as [|k' ks IH]; intros m; simpl; [done|].
  rewrite IH. destruct (decide (k = k')) as [->|Hne].
  - rewrite (bool_decide_eq_true_2 (k' ∈ k' :: ks)) by left.
    destruct (outage w (DEL k')); simpl.
    + by rewrite andb_false_r.
    + rewrite lookup_delete_eq. by destruct (bool_decide _).
  - assert (bool_decide (k ∈ k' :: ks) = bool_decide (k ∈ ks)) as ->.
    { apply bool_decide_ext. rewrite elem_of_cons.
      split; [by intros [?|?]|by right]. }
    destruct (outage w (DEL k')); [done|]. by rewrite lookup_delete_ne.
Qed.

Lemma own_elem {V} (t : string) (o : list (string * V)) (v : V) :
  Js.own t o = Some v → (t, v) ∈ o.
Proof.
  unfold Js.own. induction o as [|[t' v'] o IH]; simpl; [done|].
  destruct (String.eqb_spec t t') as [->|Hne]; simpl.
  - intros [= ->]. by left.
  - intros Hv. right. by apply IH.
Qed.

(** Whatever the target, the keys to delete are keys of the table. *)
Lemma keysToDelete_in_table (config : Config) (target : option string) ks k :
  Invalidate.keysToDelete config target = Some (Js.Arr ks) →
  k ∈ ks → k ∈ concat (Js.values (Invalidate.cacheKeys config)).
Proof.
  unfold Invalidate.keysToDelete. destruct target as [t|]; [|done].
  destruct (Js.truthy (Some t) && Js.has t (Invalidate.cacheKeys config)).
  - unfold Js.get. destruct (Js.own t _) as [ks'|] eqn:Hown.
    + intros [= <-] Hk. apply values_concat_elem. exists t, ks'.
      split; [by apply own_elem|done].
    + by destruct (bool_decide _).
  - destruct (String.eqb t "all"); [|done]. by intros [= <-].
Qed.

Lemma cargo_key_not_in_table (config : Config) :
  Cargo.cacheKey config ∉ concat (Js.values (Invalidate.cacheKeys config)).
Proof.
  unfold Js.values, Cargo.cacheKey. simpl. cbv [String.append].
  rewrite !not_elem_of_cons, elem_of_nil. intuition congruence.
Qed.

(** The endpoint succeeds exactly on the six names it advertises in its
    error object, which are the names [invalidate-cache.ps1] lets through. *)
Theorem invalidate_succeeds_iff_advertised (config : Config) (t : string) w :
  (∃ r, fst (Invalidate.handler config (Some t) w)
        = Returned (Invalidate.Success r))
  ↔ t ∈ valid_targets.
Proof.
  split.
  - intros [r Hr]. destruct (decide (t ∈ valid_targets)) as [|Hv]; [done|].
    destruct (decide (t ∈ Js.Object_prototype)) as [Hp|Hp].
    + unfold Js.Object_prototype in Hp. rewrite !elem_of_cons, elem_of_nil in Hp.
      repeat (destruct Hp as [->|Hp]; [discriminate Hr|]). done.
    + by rewrite invalidate_unknown_target in Hr.
  - unfold valid_targets. rewrite !elem_of_cons, elem_of_nil.
    intros [->|[->|[->|[->|[->|[->|[]]]]]]];
      eexists; (erewrite invalidate_run; [reflexivity|reflexivity]).
Qed.

(** For a target the endpoint accepts, the store afterwards lacks the keys
    whose deletion it took and holds everything else as before; the answer
    counts the deletions taken and the deletions rejected, and is a success
    however many were rejected. *)
Theorem invalidate_store_effect (config : Config) (target : option string) ks w :
  Invalidate.keysToDelete config target = Some (Js.Arr ks) →
  (∀ k : string,
     entries (snd (Invalidate.handler config target w)) !! k
     = if bool_decide (k ∈ ks) && negb (outage w (DEL k)) then None
       else entries w !! k)
  ∧ ∃ r, fst (Invalidate.handler config target w)
         = Returned (Invalidate.Success r)
         ∧ Invalidate.keys r = ks
         ∧ Invalidate.deleted r
           = length (filter (λ k, outage w (DEL k) = false) ks)
         ∧ Invalidate.failed r
           = length (filter (λ k, outage w (DEL k) = true) ks).
Proof.
  intros Hkeys. rewrite (invalidate_run _ _ _ _ Hkeys). cbn [fst snd]. split.
  - intros k. apply after_del_lookup.
  - eexists. split; [done|]. cbn. split; [done|].
    split; [apply del_results_fulfilled|apply del_results_rejected].
Qed.

Lemma invalidate_keeps_cargo_entry (config : Config) (target : option string) w :
  entries (snd (Invalidate.handler config target w)) !! Cargo.cacheKey config
  = entries w !! Cargo.cacheKey config
  ∧ outage (snd (Invalidate.handler config target w)) = outage w.
Proof.
  destruct (Invalidate.keysToDelete config target) as [[ks| |]|] eqn:Hkeys.
  - rewrite (invalidate_run _ _ _ _ Hkeys). cbn [fst snd]. split; [|done].
    rewrite after_del_lookup.
    rewrite bool_decide_eq_false_2; [done|]. intros Hin.
    apply (cargo_key_not_in_table config).
    by eapply keysToDelete_in_table.
  - unfold Invalidate.handler. by rewrite Hkeys.
  - unfold Invalidate.handler. by rewrite Hkeys.
  - unfold Invalidate.handler. by rewrite Hkeys.
Qed.

End MoreInvalidateFacts.

(** ** Invalidation and the data endpoints together *)

Section InvalidateThenFetch.
Context `{Caching} `{JsonParse} `{Locale}.
Context `{Json Cargo.CargoPackage} `{Json Github.Project}.

(** No target, not even [all], reaches the entry of the crates.io endpoint:
    its key is in no list of the table, so after any invalidation request a
    cached list of crates is still what the endpoint answers. *)
Theorem cargo_cache_survives_invalidation (config : Config)
    (target : option string) (w : World Cargo.CargoResponse) entry :
  outage w (GET (Cargo.cacheKey config)) = false →
  entries w !! Cargo.cacheKey config = Some entry →
  JsVal.truthy (deserialize (value entry)) = true →
  entries (snd (Invalidate.handler config target w)) !! Cargo.cacheKey config
  = Some entry
  ∧ fst (Cargo.handler config (snd (Invalidate.handler config target w)))
    = Returned (Cached (deserialize (value entry))).
Proof.
  intros Hout Hentry Htruthy.
  destruct (invalidate_keeps_cargo_entry config target w) as [Hen Hkeep].
  rewrite Hen. split; [done|].
  assert (reads (Cargo.cacheKey config) (snd (Invalidate.handler config target w))
          = deserialize (value entry)) as Hread.
  { apply reads_entry; [by rewrite Hkeep|by rewrite Hen]. }
  rewrite cargo_handler_cache_aside, cache_aside_hit; by rewrite Hread.
Qed.

(** After an invalidation of [github] or [all] whose deletions the store
    took, the two GitHub endpoints miss: each answers what its fetch gives,
    whatever was cached before. *)
Theorem invalidated_github_is_fetched_again (config : Config) (target : string)
    (w : World Github.Response) :
  target = "github" ∨ target = "all" →
  (outage w (DEL (Github.contributions_key config)) = false →
   fst (Github.contributions config
          (snd (Invalidate.handler config (Some target) w)))
   = fresh (fst (contributions_routine config
                   (snd (Invalidate.handler config (Some target) w)))))
  ∧ (outage w (DEL Github.starred_key) = false →
     fst (Github.starred config
            (snd (Invalidate.handler config (Some target) w)))
     = fresh (fst (starred_routine config
                     (snd (Invalidate.handler config (Some target) w))))).
Proof.
  intros Htarget.
  assert (∃ ks, Invalidate.keysToDelete config (Some target) = Some (Js.Arr ks)
                ∧ Github.contributions_key config ∈ ks
                ∧ Github.starred_key ∈ ks) as (ks & Hkeys & Hc & Hs).
  { destruct Htarget as [-> | ->]; eexists; (split; [reflexivity|]);
      unfold Github.contributions_key, Github.starred_key; simpl;
      rewrite !elem_of_cons; auto. }
  rewrite (invalidate_run _ _ _ _ Hkeys). cbn [snd].
  split; intros Hdel.
  - rewrite contributions_cache_aside.
    apply cache_aside_miss_outcome; [apply contributions_routine_upstream_only|].
    unfold reads. rewrite after_del_lookup, Hdel.
    rewrite bool_decide_eq_true_2 by done. simpl. by destruct (outage w (GET _)).
  - rewrite starred_cache_aside.
    apply cache_aside_miss_outcome; [apply starred_routine_upstream_only|].
    unfold reads. rewrite after_del_lookup, Hdel.
    rewrite bool_decide_eq_true_2 by done. simpl. by destruct (outage w (GET _)).
Qed.

End InvalidateThenFetch.

(** ** The requests of the fetch routines *)

Section MoreCargoFacts.
Context `{Caching} `{JsonParse} `{Json Cargo.CargoPackage}.
Implicit Type w : World Cargo.CargoResponse.

(** Without a crates.io user id there is nothing to fetch: on a miss the
    endpoint sends no request, uses no reply, writes nothing and answers the
    empty list. *)
Theorem cargo_without_user_id (config : Config) w :
  cargoUserId config = EmptyString →
  JsVal.truthy (reads (Cargo.cacheKey config) w) = false →
  fst (Cargo.handler config w) = Returned (Fresh [])
  ∧ sent (snd (Cargo.handler config w)) = sent w
  ∧ upstream (snd (Cargo.handler config w)) = upstream w
  ∧ journal (snd (Cargo.handler config w))
    = journal w ++ [GET (Cargo.cacheKey config)].
Proof.
  intros Hid Hmiss.
  assert (cargo_routine config w = (Returned [], w)) as Hrun.
  { unfold cargo_routine, bind, Cargo.first_url. rewrite Hid.
    by rewrite cargo_pages_stop. }
  rewrite !cargo_handler_cache_aside.
  pose proof (cache_aside_miss_upstream _ _ (cargo_routine_upstream_only config)
                w Hmiss) as [Hsent Hup].
  pose proof (cache_aside_miss_store _ _ (cargo_routine_upstream_only config)
                w Hmiss) as Hstore.
  rewrite cache_aside_miss_outcome, Hsent, Hup;
    [|apply cargo_routine_upstream_only|done].
  rewrite Hrun in *. by destruct Hstore.
Qed.

(** The crates.io loop sends one request for each page of the listing: the
    first to the URL built from the user id, each later one to the
    [next_page] of the page before it, as it stands; the replies after the
    listing are left unused.  The pages are served, which takes every
    [next_page] to be a string [$fetch] accepts; a listing that breaks off
    at a request fails as a whole. *)
Theorem cargo_one_request_per_page (config : Config) w init last rest :
  JsVal.truthy (reads (Cargo.cacheKey config) w) = false →
  Js.truthy (Some (cargoUserId config)) = true →
  upstream w = (Fulfilled <$> init ++ [last]) ++ rest →
  Forall (λ r, cargo_more r = true) init → cargo_more last = false →
  sent (snd (Cargo.handler config w))
  = sent w
    ++ (Cargo.request
          <$> ("https://crates.io/api/v1/crates?page=1&per_page=10&sort=alpha&user_id="
               +:+ cargoUserId config)
              :: (next_url <$> init))
  ∧ upstream (snd (Cargo.handler config w)) = rest.
Proof.
  intros Hmiss Hid Hup Hinit Hlast.
  rewrite !cargo_handler_cache_aside.
  pose proof (cache_aside_miss_upstream _ _ (cargo_routine_upstream_only config)
                w Hmiss) as [-> ->].
  unfold cargo_routine, bind, ret. rewrite cargo_pages_collect, Hup.
  assert (Cargo.first_url config
          = Some ("https://crates.io/api/v1/crates?page=1&per_page=10&sort=alpha&user_id="
                  +:+ cargoUserId config)) as ->.
  { unfold Cargo.first_url. by destruct (cargoUserId config). }
  rewrite cargo_collect_listing_requests; [done| |done..].
  by destruct (cargoUserId config).
Qed.

End MoreCargoFacts.

Section MoreGithubFacts.
Context `{Caching} `{JsonParse} `{Locale} `{Json Github.Project}.
Implicit Type w : World Github.Response.

Lemma visit_record acc repo :
  Github.visit acc repo
  = match key_of repo with
    | Some (String c k) =>
        if bool_decide (String c k ∈ acc.2) then acc
        else (acc.1 ++ [record_of repo], {[ String c k ]} ∪ acc.2)
    | _ => acc
    end.
Proof.
  destruct acc as [projects seen]. unfold Github.visit, record_of, key_of.
  by destruct (toLowerCase <$> _) as [[|c k]|].
Qed.

Lemma visit_elem acc repo p :
  deduplicated acc →
  p ∈ (Github.visit acc repo).1
  ↔ p ∈ acc.1
    ∨ (p = record_of repo ∧ Js.truthy (key_of repo) = true
       ∧ key_of repo ∉ Github.name <$> acc.1).
Proof.
  intros (_ & Hseen & _). rewrite visit_record.
  destruct (key_of repo) as [[|c k]|] eqn:Hkey; simpl.
  - split; [by left|]. by intros [?|(_ & ? & _)].
  - destruct (decide (String c k ∈ acc.2)) as [Hin|Hout].
    + rewrite bool_decide_eq_true_2 by done. split; [by left|].
      intros [?|(_ & _ & Hnot)]; [done|]. destruct Hnot. by apply Hseen.
    + rewrite bool_decide_eq_false_2 by done. simpl.
      rewrite elem_of_app, list_elem_of_singleton. split.
      * intros [? | ->]; [by left|]. right. repeat split.
        intros Hin. by apply Hout, Hseen.
      * intros [?|(-> & _ & _)]; [by left|by right].
  - split; [by left|]. by intros [?|(_ & ? & _)].
Qed.

Lemma name_record_of repo : Github.name (record_of repo) = key_of repo.
Proof. reflexivity. Qed.

(** The records the loop has built from a run of nodes are the records of
    the nodes that are the first of their name. *)
Lemma foldl_visit_firsts repos p :
  p ∈ (foldl Github.visit ([], ∅) repos).1
  ↔ ∃ repo, first_of_its_name repos repo ∧ p = record_of repo.
Proof.
  revert p. induction repos as [|x repos IH] using rev_ind; intros p.
  - simpl. split; [by intros ?%elem_of_nil|].
    intros (repo & (earlier & later & Hnil & _) & _).
    by destruct earlier.
  - rewrite foldl_app. cbn [foldl].
    pose proof (foldl_visit_deduplicated repos ([], ∅) initial_deduplicated) as Hd.
    rewrite visit_elem by done. split.
    + intros [Hin|(-> & Htruthy & Hnew)].
      * apply IH in Hin as (repo & (earlier & later & -> & Ht & Hfirst) & ->).
        exists repo. split; [|done]. exists earlier, (later ++ [x]).
        by rewrite <- app_assoc.
      * exists x. split; [|done]. exists repos, []. repeat split; [done|].
        intros other Hother Heq. apply Hnew. rewrite <- Heq.
        apply foldl_visit_records; [apply initial_deduplicated|done|].
        by rewrite Heq.
    + intros (repo & (earlier & later & Heq & Ht & Hfirst) & ->).
      destruct later as [|y later _] using rev_ind.
      * apply app_inj_tail in Heq as [-> ->]. right. repeat split; [done|].
        intros Hin. apply list_elem_of_fmap in Hin as (q & Hq & Hin).
        apply IH in Hin as (other & (e & l & -> & _ & _) & ->).
        rewrite name_record_of in Hq. apply (Hfirst other); [|done].
        rewrite elem_of_app, elem_of_cons. auto.
      * left. apply IH. exists repo. split; [|done]. exists earlier, later.
        repeat split; [|done..].
        rewrite app_comm_cons, app_assoc in Heq.
        by apply app_inj_tail in Heq as [-> _].
Qed.

(** The contributions endpoint answers one record for each node that is the
    first of its lower-cased name among the nodes of the pages read, built
    from that node: a later node of the same name changes nothing, and a node
    without a name gives no record. *)
Theorem contributions_first_node_wins (config : Config) w items :
  fst (Github.contributions config w) = Returned (Fresh items) →
  ∃ consumed : list Github.Response,
    upstream w = (Fulfilled <$> consumed)
                   ++ upstream (snd (Github.contributions config w))
    ∧ ∀ p, p ∈ items
           ↔ ∃ repo,
               first_of_its_name (concat (page_nodes <$> consumed)) repo
               ∧ p = record_of repo.
Proof.
  intros (consumed & Hup & _ & ->)%contributions_fresh.
  exists consumed. split; [done|]. intros p.
  rewrite sort_Permutation. apply foldl_visit_firsts.
Qed.

Lemma contributions_miss_upstream (config : Config) w :
  JsVal.truthy (reads (Github.contributions_key config) w) = false →
  sent (snd (Github.contributions config w))
    = sent (snd (contributions_routine config w))
  ∧ upstream (snd (Github.contributions config w))
    = upstream (snd (contributions_routine config w)).
Proof.
  intros Hmiss. rewrite !contributions_cache_aside.
  by apply cache_aside_miss_upstream; [apply contributions_routine_upstream_only|].
Qed.

(** The contributions loop ends after a reply that reports no next page, and
    also after one that reports a next page but carries no cursor: the
    endpoint then answers (and caches) the nodes read so far, having sent one
    request for that reply. *)
Theorem contributions_ends_without_cursor (config : Config) w response rest :
  JsVal.truthy (reads (Github.contributions_key config) w) = false →
  upstream w = Fulfilled response :: rest →
  default false (Github.hasNextPage <$> (response ≫= Github.pageInfo)) = false
  ∨ Js.truthy ((response ≫= Github.pageInfo) ≫= Github.endCursor) = false →
  fst (Github.contributions config w)
  = Returned (Fresh (Js.sort Github.by_stars
                       (foldl Github.visit ([], ∅) (page_nodes response)).1))
  ∧ sent (snd (Github.contributions config w))
    = sent w ++ [contributions_request config]
  ∧ upstream (snd (Github.contributions config w)) = rest.
Proof.
  intros Hmiss Hup Hend.
  assert (goes_on response = false) as Hstop.
  { unfold goes_on, Js.or_else.
    destruct Hend as [-> | Hcursor]; [done|].
    rewrite Hcursor. simpl. apply andb_false_r. }
  destruct (contributions_miss_upstream config w Hmiss) as [-> ->].
  rewrite contributions_cache_aside, cache_aside_miss_outcome;
    [|apply contributions_routine_upstream_only|done].
  unfold contributions_routine, bind, ret. rewrite github_pages_collect, Hup.
  cbn [github_collect]. rewrite Hstop, absorb_page_nodes. by destruct w.
Qed.

(** The starred endpoint sends one request and reads one reply, whatever
    the reply says of further pages, and answers one record for each node of
    the reply, in the order of the reply, with no node dropped or merged. *)
Theorem starred_reads_one_page (config : Config) w response rest :
  JsVal.truthy (reads Github.starred_key w) = false →
  upstream w = Fulfilled response :: rest →
  ∃ items,
    fst (Github.starred config w) = Returned (Fresh items)
    ∧ length items = length (page_nodes response)
    ∧ (∀ i repo, page_nodes response !! i = Some repo →
                 items !! i = Some (Github.shape repo))
    ∧ sent (snd (Github.starred config w)) = sent w ++ [starred_request config]
    ∧ upstream (snd (Github.starred config w)) = rest.
Proof.
  intros Hmiss Hup. exists (Github.shape <$> page_nodes response).
  rewrite !starred_cache_aside.
  pose proof (cache_aside_miss_upstream _ _ (starred_routine_upstream_only config)
                w Hmiss) as [-> ->].
  rewrite cache_aside_miss_outcome;
    [|apply starred_routine_upstream_only|done].
  unfold starred_routine, bind, ret, fetch. rewrite Hup. cbn [fst snd].
  split; [done|]. split; [by rewrite length_fmap|].
  split; [|by destruct w].
  intros i repo Hi. by rewrite list_lookup_fmap, Hi.
Qed.

End MoreGithubFacts.

(** ** The Strava token refresh, case by case *)

Section MoreStravaFacts.
Context `{JsonParse}.
Implicit Type w : World Strava.TokenResponse.

(** The refresh handler of [index.post.ts] hands out an access token only
    when the exchange has just answered, and then it is the token of that
    answer; when it answers without a token it has sent no request, used no
    reply and left the store as it was. *)
Theorem refresh_token_comes_from_exchange (config : Config) w r :
  fst (Strava.refresh config w) = Returned r →
  match Strava.result_access_token r with
  | Some token =>
      Strava.result_error r = None
      ∧ ∃ response rest,
          upstream w = Fulfilled response :: rest
          ∧ token = Strava.access_token response
          ∧ upstream (snd (Strava.refresh config w)) = rest
  | None =>
      is_Some (Strava.result_error r)
      ∧ sent (snd (Strava.refresh config w)) = sent w
      ∧ upstream (snd (Strava.refresh config w)) = upstream w
      ∧ entries (snd (Strava.refresh config w)) = entries w
  end.
Proof.
  destruct w as [en out jn up sn co hd]. unfold Strava.refresh.
  destruct (stravaClientId config) as [|ci cid]; [by intros [= <-]|].
  destruct (stravaClientSecret config) as [|cs csec]; [by intros [= <-]|].
  cbn [Js.truthy negb orb]. run.
  tests config en out; taken; try (by intros [= <-]);
    destruct up as [|[response|e] rest]; try done;
    destruct (out (MSET _)); simpl; intros [= <-]; simpl; by eauto 10.
Qed.

(** The request the handler of [index.post.ts] sends, in terms of the token
    it ends up with. *)
Lemma refresh_sent (config : Config) w :
  strava_configured config →
  sent (snd (Strava.refresh config w))
    = if JsVal.truthy (refresh_token_used config w)
      then sent w
             ++ [Strava.token_request config
                   (JsVal.to_string (refresh_token_used config w))]
      else sent w.
Proof.
  intros [Hid Hsecret].
  destruct w as [en out jn up sn co hd].
  unfold Strava.refresh, refresh_token_used, reads.
  rewrite Hid, Hsecret. cbn [negb orb]. run.
  tests config en out; taken; try done;
    destruct up as [|[response|e] rest]; simpl; try done;
    by destruct (out (MSET _)).
Qed.

(** Which refresh token goes to Strava.  When the store answers with a
    string that the client hands back as a truthy value, that value goes out
    as [searchParams.set] prints it, whatever the configuration holds; in
    particular a non-empty string that is no JSON text goes out as it is.
    Otherwise (the read failed, the key is absent, or the value handed back
    is falsy) the configured token goes out.  One request is sent in each
    case, also when no reply ever comes. *)
Theorem refresh_token_precedence (config : Config) w :
  strava_configured config →
  (∀ token,
     outage w (GET "strava:refresh_token") = false →
     value <$> entries w !! "strava:refresh_token" = Some token →
     JsVal.truthy (deserialize token) = true →
     sent (snd (Strava.refresh config w))
       = sent w ++ [Strava.token_request config
                      (JsVal.to_string (deserialize token))])
  ∧ (∀ token,
       outage w (GET "strava:refresh_token") = false →
       value <$> entries w !! "strava:refresh_token" = Some token →
       JSON_parse token = None → token ≠ EmptyString →
       sent (snd (Strava.refresh config w))
         = sent w ++ [Strava.token_request config token])
  ∧ (JsVal.truthy (reads "strava:refresh_token" w) = false →
     stravaRefreshToken config ≠ EmptyString →
     sent (snd (Strava.refresh config w))
       = sent w ++ [Strava.token_request config (stravaRefreshToken config)]).
Proof.
  intros Hconf. rewrite (refresh_sent _ _ Hconf).
  assert (∀ token,
            outage w (GET "strava:refresh_token") = false →
            value <$> entries w !! "strava:refresh_token" = Some token →
            reads "strava:refresh_token" w = deserialize token) as Hread.
  { intros token Hget Hstored. unfold reads. rewrite Hget.
    destruct (entries w !! "strava:refresh_token") as [entry|]; by simplify_eq/=. }
  unfold refresh_token_used. split; [|split].
  - intros token Hget Hstored Htoken.
    rewrite (Hread token Hget Hstored), Htoken. cbn [negb andb].
    by rewrite Htoken.
  - intros token Hget Hstored Hparse Htoken.
    rewrite (Hread token Hget Hstored). unfold deserialize. rewrite Hparse.
    by destruct token.
  - intros -> Hfallback. by destruct (stravaRefreshToken config).
Qed.

(** A rejected exchange is the outcome of the request: the handler throws
    the error of [$fetch] after logging it, and the store is neither written
    nor asked to be. *)
Theorem refresh_exchange_failure (config : Config) w e rest :
  strava_configured config →
  JsVal.truthy (refresh_token_used config w) = true →
  upstream w = Rejected e :: rest →
  fst (Strava.refresh config w) = Threw e
  ∧ entries (snd (Strava.refresh config w)) = entries w
  ∧ journal (snd (Strava.refresh config w))
      = journal w ++ [GET "strava:refresh_token"]
  ∧ last (console (snd (Strava.refresh config w)))
      = Some (LError, "Failed to refresh Strava token via API:").
Proof.
  intros [Hid Hsecret] Htoken Hup.
  destruct w as [en out jn up sn co hd]; simpl in Hup; subst up.
  unfold refresh_token_used, reads in Htoken. cbn [outage entries] in Htoken.
  unfold Strava.refresh. rewrite Hid, Hsecret. cbn [negb orb]. run.
  tests config en out; cbn [negb andb Js.truthy JsVal.truthy] in Htoken;
    rewrite ?Hfound in Htoken; try done; taken;
    simpl; by rewrite last_snoc.
Qed.

(** What a refresh that got its reply leaves in the store. *)
Lemma refresh_store (config : Config) w response rest :
  strava_configured config →
  JsVal.truthy (refresh_token_used config w) = true →
  upstream w = Fulfilled response :: rest →
  outage (snd (Strava.refresh config w)) = outage w
  ∧ entries (snd (Strava.refresh config w))
    = if outage w (MSET (Strava.tokens response)) then entries w
      else <["strava:refresh_token" :=
               mkEntry (Strava.refresh_token response) None]>
             (<["strava:access_token" :=
                  mkEntry (Strava.access_token response) None]>
                (entries w)).
Proof.
  intros [Hid Hsecret] Htoken Hup.
  destruct w as [en out jn up sn co hd]; simpl in Hup; subst up.
  unfold refresh_token_used, reads in Htoken. cbn [outage entries] in Htoken.
  unfold Strava.refresh. rewrite Hid, Hsecret. cbn [negb orb]. run.
  tests config en out; cbn [negb andb Js.truthy JsVal.truthy] in Htoken;
    rewrite ?Hfound in Htoken; try done; taken;
    destruct (out (MSET (Strava.tokens response))); simpl; done.
Qed.

(** Rotation: when the store takes the new pair, the store holds both new
    tokens and the handler run again sends the refresh token that the
    previous exchange gave, as the client hands it back. *)
Theorem refresh_rotates_token (config : Config) w response rest :
  strava_configured config →
  JsVal.truthy (refresh_token_used config w) = true →
  upstream w = Fulfilled response :: rest →
  (∀ c, outage w c = false) →
  JsVal.truthy (deserialize (Strava.refresh_token response)) = true →
  let w' := snd (Strava.refresh config w) in
  value <$> entries w' !! "strava:access_token"
    = Some (Strava.access_token response)
  ∧ value <$> entries w' !! "strava:refresh_token"
      = Some (Strava.refresh_token response)
  ∧ sent (snd (Strava.refresh config w'))
      = sent w'
        ++ [Strava.token_request config
              (JsVal.to_string (deserialize (Strava.refresh_token response)))].
Proof.
  intros Hconf Htoken Hup Hout Hnew w'.
  destruct (refresh_store config w response rest Hconf Htoken Hup)
    as [Hout' Hen'].
  rewrite Hout in Hen'. fold w' in Hout', Hen'.
  assert (entries w' !! "strava:refresh_token"
            = Some (mkEntry (Strava.refresh_token response) None)) as Hstored.
  { by rewrite Hen', lookup_insert_eq. }
  split; [|split].
  - rewrite Hen', lookup_insert_ne, lookup_insert_eq; [done|].
    cbv [String.append]. congruence.
  - by rewrite Hstored.
  - rewrite (refresh_sent _ _ Hconf). unfold refresh_token_used, reads.
    rewrite Hout', Hout, Hstored. cbn [found value]. rewrite Hnew.
    cbn [negb andb]. by rewrite Hnew.
Qed.

(** When the store rejects the write of the new pair the handler still
    answers with the new access token, and the handler run again sends the
    same refresh token as before: the one Strava has just replaced is used a
    second time. *)
Theorem refresh_unpersisted_token_is_reused (config : Config) w response rest :
  strava_configured config →
  JsVal.truthy (refresh_token_used config w) = true →
  upstream w = Fulfilled response :: rest →
  outage w (MSET (Strava.tokens response)) = true →
  let w' := snd (Strava.refresh config w) in
  fst (Strava.refresh config w)
    = Returned (Strava.mkResult (Some (Strava.access_token response)) None)
  ∧ sent w'
    = sent w ++ [Strava.token_request config
                   (JsVal.to_string (refresh_token_used config w))]
  ∧ sent (snd (Strava.refresh config w'))
    = sent w' ++ [Strava.token_request config
                    (JsVal.to_string (refresh_token_used config w))].
Proof.
  intros Hconf Htoken Hup Hmset w'.
  destruct (refresh_store config w response rest Hconf Htoken Hup)
    as [Hout' Hen'].
  rewrite Hmset in Hen'. fold w' in Hout', Hen'.
  assert (refresh_token_used config w' = refresh_token_used config w) as Hused.
  { unfold refresh_token_used, reads. by rewrite Hout', Hen'. }
  split; [by apply (refresh_returns_token config w response rest)|].
  split.
  - unfold w'. by rewrite (refresh_sent _ _ Hconf), Htoken.
  - by rewrite (refresh_sent _ _ Hconf), Hused, Htoken.
Qed.

(** The two refresh handlers differ only where the store fails or is empty:
    with a store that answers and holds a refresh token they give the same
    result, send the same request and leave the same store content and the
    same journal (the console differs). *)
Theorem refresh_handlers_agree (config : Config) w :
  outage w (GET "strava:refresh_token") = false →
  (∀ response, outage w (MSET (Strava.tokens response)) = false) →
  JsVal.truthy (reads "strava:refresh_token" w) = true →
  fst (Strava.refresh config w) = fst (Strava.refresh_cloudflare config w)
  ∧ entries (snd (Strava.refresh config w))
      = entries (snd (Strava.refresh_cloudflare config w))
  ∧ journal (snd (Strava.refresh config w))
      = journal (snd (Strava.refresh_cloudflare config w))
  ∧ sent (snd (Strava.refresh config w))
      = sent (snd (Strava.refresh_cloudflare config w))
  ∧ upstream (snd (Strava.refresh config w))
      = upstream (snd (Strava.refresh_cloudflare config w)).
Proof.
  intros Hget Hmset Hstored.
  destruct w as [en out jn up sn co hd]. simpl in Hget, Hmset.
  unfold reads in Hstored. cbn [outage entries] in Hstored.
  rewrite Hget in Hstored.
  unfold Strava.refresh, Strava.refresh_cloudflare.
  destruct (negb (Js.truthy (Some (stravaClientId config)))
            || negb (Js.truthy (Some (stravaClientSecret config)))); [done|].
  run. taken.
  destruct up as [|[response|e] rest]; simpl; [done| |done].
  by rewrite Hmset.
Qed.

(** The handler importing [@upstash/redis/cloudflare] never uses the
    configured refresh token: with a store that answers but holds no token
    it answers [Refresh token not found] and sends nothing, where the handler
    of [index.post.ts] sends the configured token; and a failed read is the
    outcome of its request. *)
Theorem refresh_cloudflare_has_no_fallback (config : Config) w :
  strava_configured config →
  JsVal.truthy (reads "strava:refresh_token" w) = false →
  stravaRefreshToken config ≠ EmptyString →
  sent (snd (Strava.refresh config w))
    = sent w ++ [Strava.token_request config (stravaRefreshToken config)]
  ∧ if outage w (GET "strava:refresh_token")
    then fst (Strava.refresh_cloudflare config w) = Threw StoreError
    else fst (Strava.refresh_cloudflare config w)
           = Returned (Strava.mkResult None (Some "Refresh token not found"))
         ∧ sent (snd (Strava.refresh_cloudflare config w)) = sent w.
Proof.
  intros Hconf Hnone Hfallback. split.
  - rewrite (refresh_sent _ _ Hconf). unfold refresh_token_used.
    rewrite Hnone. by destruct (stravaRefreshToken config).
  - destruct Hconf as [Hid Hsecret].
    destruct w as [en out jn up sn co hd].
    unfold reads in Hnone. cbn [outage entries] in *.
    unfold Strava.refresh_cloudflare. rewrite Hid, Hsecret. cbn [negb orb]. run.
    destruct (out (GET "strava:refresh_token")); [done|]. by taken.
Qed.

End MoreStravaFacts.

(** ** The Strava authorisation callback *)

Section StravaCallbackFacts.
Context `{JsonParse} `{Json Z}.
Implicit Type w : World StravaCallback.StravaAuthResponse.

(** The callback answers success exactly when the exchange has answered
    with a non-zero athlete id.  Such a reply always gives the success
    answer for that athlete, with one request sent and one [MSET] of the two
    tokens and the id issued; a store that rejects the write keeps its
    content and does not change the answer.  In every other case the
    request fails and the store is neither written nor asked to be: without
    a code with a [TypeError] before anything is sent, on a reply without
    an athlete id, or with the id zero, with the error that ends the
    function, on a rejected exchange with the error of the exchange. *)
Theorem callback_stores_iff_authenticated (config : Config) (code : option string) w :
  let run := StravaCallback.handler config code w in
  (∀ c response rest who athlete_id,
     code = Some c →
     upstream w = Fulfilled response :: rest →
     StravaCallback.athlete response = Some who →
     StravaCallback.id who = Some athlete_id → athlete_id ≠ 0 →
     fst run
       = Returned {|
           StravaCallback.success := true;
           StravaCallback.summary := {|
             StravaCallback.summary_id := athlete_id;
             StravaCallback.summary_name :=
               StravaCallback.firstname who +:+ " " +:+ StravaCallback.lastname who;
             StravaCallback.summary_username := StravaCallback.username who |};
           StravaCallback.message := "Successfully authenticated with Strava!" |}
     ∧ sent (snd run) = sent w ++ [StravaCallback.token_request config c]
     ∧ upstream (snd run) = rest
     ∧ journal (snd run)
       = journal w ++ [MSET (StravaCallback.tokens response athlete_id)]
     ∧ entries (snd run)
       = if outage w (MSET (StravaCallback.tokens response athlete_id))
         then entries w
         else <["strava:athlete_id" := mkEntry (stringify athlete_id) None]>
                (<["strava:refresh_token" :=
                     mkEntry (StravaCallback.refresh_token response) None]>
                   (<["strava:access_token" :=
                        mkEntry (StravaCallback.access_token response) None]>
                      (entries w))))
  ∧ (∀ a,
       fst run = Returned a →
       ∃ c response rest who,
         code = Some c
         ∧ upstream w = Fulfilled response :: rest
         ∧ StravaCallback.athlete response = Some who
         ∧ StravaCallback.id who
           = Some (StravaCallback.summary_id (StravaCallback.summary a))
         ∧ StravaCallback.summary_id (StravaCallback.summary a) ≠ 0)
  ∧ ((∀ a, fst run ≠ Returned a) →
     journal (snd run) = journal w ∧ entries (snd run) = entries w)
  ∧ (code = None →
     fst run = Threw (TypeError "Code is not set") ∧ sent (snd run) = sent w)
  ∧ (∀ c response rest,
       code = Some c →
       upstream w = Fulfilled response :: rest →
       StravaCallback.athlete response ≫= StravaCallback.id = None
       ∨ StravaCallback.athlete response ≫= StravaCallback.id = Some 0 →
       fst run = Threw (PlainError "Failed to authenticate with Strava"))
  ∧ (∀ c e rest,
       code = Some c → upstream w = Rejected e :: rest → fst run = Threw e).
Proof.
  intros run. subst run.
  destruct w as [en out jn up sn co hd]. unfold StravaCallback.handler.
  split; [|split; [|split; [|split; [|split]]]].
  - intros c response rest who n -> Hup Hwho Hid Hn. simpl in Hup. subst up.
    run. rewrite Hwho, Hid.
    destruct (Z.eqb_spec n 0) as [?|_]; [done|].
    by destruct (out (MSET _)).
  - intros a. destruct code as [c|]; [|done]. run.
    destruct up as [|[response|e] rest]; [done| |done].
    destruct (StravaCallback.athlete response) as [who|] eqn:Hwho; [|done].
    destruct (StravaCallback.id who) as [n|] eqn:Hid; [|done].
    destruct (Z.eqb_spec n 0) as [->|Hn]; [done|].
    destruct (out (MSET _)); simpl; intros [= <-]; by exists c, response, rest, who.
  - intros Hfails. destruct code as [c|]; [|done]. run.
    destruct up as [|[response|e] rest]; [done| |done].
    destruct (StravaCallback.athlete response) as [who|] eqn:Hwho; [|done].
    destruct (StravaCallback.id who) as [n|] eqn:Hid; [|done].
    destruct (Z.eqb_spec n 0) as [->|Hn]; [done|].
    exfalso. revert Hfails. run. rewrite Hwho, Hid.
    destruct (Z.eqb_spec n 0) as [?|_]; [done|].
    destruct (out (MSET _)); simpl; intros Hfails; by eapply Hfails.
  - by intros ->.
  - intros c response rest -> Hup Hid. simpl in Hup. subst up. run.
    destruct (StravaCallback.athlete response) as [who|]; [|done].
    simpl in Hid. destruct (StravaCallback.id who) as [n|]; [|done].
    destruct Hid as [?|[= ->]]; done.
  - intros c e rest -> Hup. simpl in Hup. by subst up.
Qed.

(** Callback, then refresh: once the callback has stored the pair it got
    for the code, the refresh handler of [index.post.ts], run against a store
    with that content, sends the refresh token of the callback's exchange,
    as the client hands it back, and not the configured one. *)
Theorem callback_then_refresh (config : Config) (code : string) w
    response rest who athlete_id (v : World Strava.TokenResponse) :
  strava_configured config →
  upstream w = Fulfilled response :: rest →
  StravaCallback.athlete response = Some who →
  StravaCallback.id who = Some athlete_id →
  athlete_id ≠ 0 →
  outage w (MSET (StravaCallback.tokens response athlete_id)) = false →
  JsVal.truthy (deserialize (StravaCallback.refresh_token response)) = true →
  entries v = entries (snd (StravaCallback.handler config (Some code) w)) →
  outage v (GET "strava:refresh_token") = false →
  sent (snd (Strava.refresh config v))
    = sent v
      ++ [Strava.token_request config
            (JsVal.to_string
               (deserialize (StravaCallback.refresh_token response)))].
Proof.
  intros Hconf Hup Hwho Hid Hn Hout Htoken Hen Hget.
  rewrite (refresh_sent _ _ Hconf). unfold refresh_token_used, reads.
  rewrite Hget, Hen.
  assert (entries (snd (StravaCallback.handler config (Some code) w))
                      !! "strava:refresh_token"
            = Some (mkEntry (StravaCallback.refresh_token response) None)) as ->.
  { destruct w as [en out jn up sn co hd]; simpl in Hup, Hout; subst up.
    unfold StravaCallback.handler. run. rewrite Hwho, Hid.
    destruct (Z.eqb_spec athlete_id 0) as [?|_]; [done|].
    rewrite Hout. simpl.
    rewrite lookup_insert_ne, lookup_insert_eq; [done|].
    cbv [String.append]. congruence. }
  cbn [found value]. rewrite Htoken. cbn [negb andb]. by rewrite Htoken.
Qed.

End StravaCallbackFacts.

(** ** The further properties on sample requests *)

Section MoreSamples.
#[local] Existing Instances sample_caching sample_locale sample_json
  package_json project_json package_value project_value number_json.

(** A hit on the stored crates: one lookup, and the waiting reply of
    crates.io is not used. *)
Lemma cache_hit_is_quiet_witness :
  sent (snd (Cargo.handler sample_config
               (stocked cached_crates [cargo_page [tokio] None]))) = []
  ∧ upstream (snd (Cargo.handler sample_config
                     (stocked cached_crates [cargo_page [tokio] None])))
    = [cargo_page [tokio] None]
  ∧ entries (snd (Cargo.handler sample_config
                    (stocked cached_crates [cargo_page [tokio] None])))
    = cached_crates
  ∧ journal (snd (Cargo.handler sample_config
                    (stocked cached_crates [cargo_page [tokio] None])))
    = [GET "cargo:packages:42"]
  ∧ console (snd (Cargo.handler sample_config
                    (stocked cached_crates [cargo_page [tokio] None])))
    = [].
Proof.
  pose proof (cache_hit_is_quiet sample_config) as (Hcargo & _).
  exact (Hcargo (stocked cached_crates [cargo_page [tokio] None])
           (mkEntry serde_text (Some 3600)) eq_refl eq_refl eq_refl).
Defined.

(** A miss is marked as one. *)
Lemma cache_header_tells_origin_witness :
  headers (snd (Cargo.handler sample_config (quiet [cargo_page [serde] None])))
    !! "x-redis-cache"
  = Some "miss".
Proof.
  pose proof (cache_header_tells_origin sample_config) as (Hcargo & _).
  exact (proj1 (Hcargo (quiet [cargo_page [serde] None]) (Fresh [serde]) eq_refl)).
Defined.

(** An emptied entry is replaced by the crates fetched. *)
Lemma miss_overwrites_entry_witness :
  entries (snd (Cargo.handler sample_config
                  (stocked emptied_crates [cargo_page [serde] None])))
    !! "cargo:packages:42"
  = Some (mkEntry (stringify [serde]) (Some 3600)).
Proof.
  pose proof (miss_overwrites_entry sample_config) as (Hcargo & _).
  refine (proj1 (Hcargo (stocked emptied_crates [cargo_page [serde] None]) [serde]
                   eq_refl eq_refl _ eq_refl)).
  discriminate.
Defined.

(** The text of zero under the key is handed back as the number zero:
    the crates are fetched; so they are with the empty string under the
    key. *)
Lemma empty_cached_string_is_a_miss_witness :
  fst (Cargo.handler sample_config
         (stocked zero_crates [cargo_page [serde] None]))
    = Returned (Fresh [serde])
  ∧ fst (Cargo.handler sample_config
           (stocked emptied_crates [cargo_page [serde] None]))
    = Returned (Fresh [serde]).
Proof.
  pose proof (empty_cached_string_is_a_miss sample_config) as ([Hzero Hempty] & _).
  exact (conj (Hzero (stocked zero_crates [cargo_page [serde] None])
                 (mkEntry "0" None) eq_refl eq_refl)
              (Hempty eq_refl (stocked emptied_crates [cargo_page [serde] None])
                 None eq_refl)).
Defined.

(** [target=github] against a store that rejects one of the three
    deletions: the entry of that key stays, the other is gone. *)
Lemma invalidate_store_effect_witness :
  entries (snd (Invalidate.handler sample_config (Some "github")
                  (starred_stuck cached_github ([] : list (Settled unit)))))
    !! "github:contributions:octocat" = None
  ∧ entries (snd (Invalidate.handler sample_config (Some "github")
                    (starred_stuck cached_github ([] : list (Settled unit)))))
      !! "github:starred" = Some (mkEntry starred_text (Some 3600)).
Proof.
  pose proof (invalidate_store_effect sample_config (Some "github")
                [ "github:starred"; "github:repositories";
                  "github:contributions:octocat" ]
                (starred_stuck cached_github ([] : list (Settled unit)))
                eq_refl) as [Heffect _].
  exact (conj (Heffect "github:contributions:octocat") (Heffect "github:starred")).
Defined.

(** [target=all] leaves the stored crates, and the crates endpoint goes on
    answering them. *)
Lemma cargo_cache_survives_invalidation_witness :
  fst (Cargo.handler sample_config
         (snd (Invalidate.handler sample_config (Some "all")
                 (stocked cached_crates []))))
  = Returned (Cached (as_value [serde])).
Proof.
  exact (proj2 (cargo_cache_survives_invalidation sample_config (Some "all")
                  (stocked cached_crates []) (mkEntry serde_text (Some 3600))
                  eq_refl eq_refl eq_refl)).
Defined.

(** After [target=github] the contributions are fetched, not read. *)
Lemma invalidated_github_is_fetched_again_witness :
  fst (Github.contributions sample_config
         (snd (Invalidate.handler sample_config (Some "github")
                 (stocked cached_github [github_page [repo "b/b" 50] false None]))))
  = Returned (Fresh [contributed "b/b" "b/b" 50]).
Proof.
  exact (proj1 (invalidated_github_is_fetched_again sample_config "github"
                  (stocked cached_github [github_page [repo "b/b" 50] false None])
                  (or_introl eq_refl))
           eq_refl).
Defined.

(** Without a crates.io user the reply that waits is not asked for. *)
Lemma cargo_without_user_id_witness :
  fst (Cargo.handler no_cargo_user (quiet [cargo_page [serde] None]))
    = Returned (Fresh [])
  ∧ sent (snd (Cargo.handler no_cargo_user (quiet [cargo_page [serde] None]))) = []
  ∧ upstream (snd (Cargo.handler no_cargo_user (quiet [cargo_page [serde] None])))
    = [cargo_page [serde] None]
  ∧ journal (snd (Cargo.handler no_cargo_user (quiet [cargo_page [serde] None])))
    = [GET "cargo:packages:"].
Proof.
  exact (cargo_without_user_id no_cargo_user (quiet [cargo_page [serde] None])
           eq_refl eq_refl).
Defined.

(** Two pages of crates: two requests, the second to the URL the first
    reply named; the third reply is left. *)
Lemma cargo_one_request_per_page_witness :
  sent (snd (Cargo.handler sample_config
               (quiet [Fulfilled first_crates; Fulfilled last_crates;
                       cargo_page [anyhow] None])))
    = [ Cargo.request
          "https://crates.io/api/v1/crates?page=1&per_page=10&sort=alpha&user_id=42";
        Cargo.request page_two ]
  ∧ upstream (snd (Cargo.handler sample_config
                     (quiet [Fulfilled first_crates; Fulfilled last_crates;
                             cargo_page [anyhow] None])))
    = [cargo_page [anyhow] None].
Proof.
  refine (cargo_one_request_per_page sample_config
            (quiet [Fulfilled first_crates; Fulfilled last_crates;
                    cargo_page [anyhow] None])
            [first_crates] last_crates [cargo_page [anyhow] None]
            eq_refl eq_refl eq_refl _ eq_refl).
  repeat constructor.
Defined.

(** One repository listed twice with different case: the record of the
    first listing is the one answered. *)
Lemma contributions_first_node_wins_witness :
  ∃ consumed : list Github.Response,
    [github_page [repo "Rust-Lang/Cargo" 50; repo "rust-lang/cargo" 60] false None]
      = (Fulfilled <$> consumed)
          ++ upstream (snd (Github.contributions sample_config
               (quiet [github_page [repo "Rust-Lang/Cargo" 50;
                                    repo "rust-lang/cargo" 60] false None])))
    ∧ ∀ p, p ∈ [contributed "Rust-Lang/Cargo" "rust-lang/cargo" 50]
           ↔ ∃ repo,
               first_of_its_name (concat (page_nodes <$> consumed)) repo
               ∧ p = record_of repo.
Proof.
  exact (contributions_first_node_wins sample_config
           (quiet [github_page [repo "Rust-Lang/Cargo" 50;
                                repo "rust-lang/cargo" 60] false None])
           [contributed "Rust-Lang/Cargo" "rust-lang/cargo" 50] eq_refl).
Defined.

(** A reply that announces a next page without a cursor ends the listing:
    the second reply is left. *)
Lemma contributions_ends_without_cursor_witness :
  fst (Github.contributions sample_config
         (quiet [ github_page [repo "b/b" 50] true None;
                  github_page [repo "c/c" 10] false None ]))
    = Returned (Fresh [contributed "b/b" "b/b" 50])
  ∧ upstream (snd (Github.contributions sample_config
                     (quiet [ github_page [repo "b/b" 50] true None;
                              github_page [repo "c/c" 10] false None ])))
    = [github_page [repo "c/c" 10] false None].
Proof.
  pose proof (contributions_ends_without_cursor sample_config
                (quiet [ github_page [repo "b/b" 50] true None;
                         github_page [repo "c/c" 10] false None ])
                _ _ eq_refl eq_refl (or_intror eq_refl)) as (Hanswer & _ & Hleft).
  exact (conj Hanswer Hleft).
Defined.

(** The starred endpoint asks once, also when the reply announces more. *)
Lemma starred_reads_one_page_witness :
  sent (snd (Github.starred sample_config
               (quiet [ github_page [repo "b/b" 50] true (Some "Y3Vyc29yOjE");
                        github_page [repo "c/c" 10] false None ])))
    = [starred_request sample_config]
  ∧ upstream (snd (Github.starred sample_config
                     (quiet [ github_page [repo "b/b" 50] true (Some "Y3Vyc29yOjE");
                              github_page [repo "c/c" 10] false None ])))
    = [github_page [repo "c/c" 10] false None].
Proof.
  pose proof (starred_reads_one_page sample_config
                (quiet [ github_page [repo "b/b" 50] true (Some "Y3Vyc29yOjE");
                         github_page [repo "c/c" 10] false None ])
                _ _ eq_refl eq_refl) as (items & _ & _ & _ & Hsent & Hleft).
  exact (conj Hsent Hleft).
Defined.

(** The access token answered is the one of the reply that was waiting. *)
Lemma refresh_token_comes_from_exchange_witness :
  ∃ response rest,
    [Fulfilled new_tokens] = Fulfilled response :: rest
    ∧ "new-access-token" = Strava.access_token response
    ∧ upstream (snd (Strava.refresh sample_config
                       (stocked stored_refresh_token [Fulfilled new_tokens])))
      = rest.
Proof.
  exact (proj2 (refresh_token_comes_from_exchange sample_config
                  (stocked stored_refresh_token [Fulfilled new_tokens])
                  (Strava.mkResult (Some "new-access-token") None) eq_refl)).
Defined.

(** The stored token goes out, though a token is configured. *)
Lemma refresh_token_precedence_witness :
  sent (snd (Strava.refresh sample_config
               (stocked stored_refresh_token [Fulfilled new_tokens])))
  = [Strava.token_request sample_config "old-refresh-token"].
Proof.
  refine (proj1 (proj2 (refresh_token_precedence sample_config
                          (stocked stored_refresh_token [Fulfilled new_tokens])
                          (conj eq_refl eq_refl)))
            "old-refresh-token" eq_refl eq_refl eq_refl _).
  discriminate.
Defined.

(** Strava answers 503 to the exchange. *)
Lemma refresh_exchange_failure_witness :
  fst (Strava.refresh sample_config
         (stocked stored_refresh_token [Rejected upstream_down]))
    = Threw upstream_down
  ∧ entries (snd (Strava.refresh sample_config
                    (stocked stored_refresh_token [Rejected upstream_down])))
    = stored_refresh_token
  ∧ journal (snd (Strava.refresh sample_config
                    (stocked stored_refresh_token [Rejected upstream_down])))
    = [GET "strava:refresh_token"]
  ∧ last (console (snd (Strava.refresh sample_config
                          (stocked stored_refresh_token [Rejected upstream_down]))))
    = Some (LError, "Failed to refresh Strava token via API:").
Proof.
  exact (refresh_exchange_failure sample_config
           (stocked stored_refresh_token [Rejected upstream_down])
           upstream_down [] (conj eq_refl eq_refl) eq_refl eq_refl).
Defined.

(** Two refreshes in a row against a store that answers: the second sends
    the token the first one got. *)
Lemma refresh_rotates_token_witness :
  sent (snd (Strava.refresh sample_config
               (snd (Strava.refresh sample_config
                       (stocked stored_refresh_token [Fulfilled new_tokens])))))
  = [ Strava.token_request sample_config "old-refresh-token";
      Strava.token_request sample_config "new-refresh-token" ].
Proof.
  exact (proj2 (proj2 (refresh_rotates_token sample_config
                         (stocked stored_refresh_token [Fulfilled new_tokens])
                         new_tokens [] (conj eq_refl eq_refl) eq_refl eq_refl
                         (λ _, eq_refl) eq_refl))).
Defined.

(** Two refreshes in a row against a store that rejects the writes: the old
    token goes out twice. *)
Lemma refresh_unpersisted_token_is_reused_witness :
  sent (snd (Strava.refresh sample_config
               (snd (Strava.refresh sample_config
                       (read_only stored_refresh_token [Fulfilled new_tokens])))))
  = [ Strava.token_request sample_config "old-refresh-token";
      Strava.token_request sample_config "old-refresh-token" ].
Proof.
  exact (proj2 (proj2 (refresh_unpersisted_token_is_reused sample_config
                         (read_only stored_refresh_token [Fulfilled new_tokens])
                         new_tokens [] (conj eq_refl eq_refl) eq_refl eq_refl
                         eq_refl))).
Defined.

(** With a token stored and a store that answers, both handlers give the
    new access token. *)
Lemma refresh_handlers_agree_witness :
  fst (Strava.refresh sample_config
         (stocked stored_refresh_token [Fulfilled new_tokens]))
  = fst (Strava.refresh_cloudflare sample_config
           (stocked stored_refresh_token [Fulfilled new_tokens])).
Proof.
  exact (proj1 (refresh_handlers_agree sample_config
                  (stocked stored_refresh_token [Fulfilled new_tokens])
                  eq_refl (λ _, eq_refl) eq_refl)).
Defined.

(** An empty store: one handler sends the configured token, the other
    answers that there is none. *)
Lemma refresh_cloudflare_has_no_fallback_witness :
  sent (snd (Strava.refresh sample_config (quiet [Fulfilled new_tokens])))
    = [Strava.token_request sample_config "configured-refresh-token"]
  ∧ fst (Strava.refresh_cloudflare sample_config (quiet [Fulfilled new_tokens]))
    = Returned (Strava.mkResult None (Some "Refresh token not found"))
  ∧ sent (snd (Strava.refresh_cloudflare sample_config
                 (quiet [Fulfilled new_tokens])))
    = [].
Proof.
  refine (refresh_cloudflare_has_no_fallback sample_config
            (quiet [Fulfilled new_tokens]) (conj eq_refl eq_refl) eq_refl _).
  discriminate.
Defined.

(** Athlete 7 authorises while the store rejects every command: the
    callback answers success all the same and the store stays empty. *)
Lemma callback_stores_iff_authenticated_witness :
  fst (StravaCallback.handler sample_config (Some "code-from-strava")
         (down [Fulfilled athlete_tokens]))
    = Returned (StravaCallback.mkAuthenticated true
                  (StravaCallback.mkSummary 7 "Ada Lovelace" "ada")
                  "Successfully authenticated with Strava!")
  ∧ journal (snd (StravaCallback.handler sample_config (Some "code-from-strava")
                    (down [Fulfilled athlete_tokens])))
    = [MSET [ ("strava:access_token", "first-access-token");
              ("strava:refresh_token", "first-refresh-token");
              ("strava:athlete_id", "7") ]]
  ∧ entries (snd (StravaCallback.handler sample_config (Some "code-from-strava")
                    (down [Fulfilled athlete_tokens])))
    = ∅.
Proof.
  pose proof (proj1 (callback_stores_iff_authenticated sample_config
                       (Some "code-from-strava")
                       (down [Fulfilled athlete_tokens]))
                "code-from-strava" athlete_tokens []
                (StravaCallback.mkAthlete (Some 7) "Ada" "Lovelace" "ada") 7
                eq_refl eq_refl eq_refl eq_refl)
    as Hsuccess.
  destruct Hsuccess as (Hanswer & _ & _ & Hjournal & Hentries); [discriminate|].
  exact (conj Hanswer (conj Hjournal Hentries)).
Defined.

(** The callback stores the pair of athlete 7; a refresh against that
    content sends the refresh token of the pair. *)
Lemma callback_then_refresh_witness :
  sent (snd (Strava.refresh sample_config
               (stocked
                  (entries (snd (StravaCallback.handler sample_config
                                   (Some "code-from-strava")
                                   (quiet [Fulfilled athlete_tokens]))))
                  [Fulfilled new_tokens])))
  = [Strava.token_request sample_config "first-refresh-token"].
Proof.
  refine (callback_then_refresh sample_config "code-from-strava"
            (quiet [Fulfilled athlete_tokens]) athlete_tokens []
            (StravaCallback.mkAthlete (Some 7) "Ada" "Lovelace" "ada") 7
            (stocked
               (entries (snd (StravaCallback.handler sample_config
                                (Some "code-from-strava")
                                (quiet [Fulfilled athlete_tokens]))))
               [Fulfilled new_tokens])
            (conj eq_refl eq_refl) eq_refl eq_refl eq_refl _ eq_refl eq_refl
            eq_refl eq_refl).
  discriminate.
Defined.

End MoreSamples.
